(** * snapText: a shallow embedding of [src/snapText.js]

    The development follows the source file top to bottom: the number
    model, the DOM boundary (text nodes with a rectangle oracle, computed
    styles), [getTextNodeLines], [toShape], [getTextShapes], [getShape],
    [getShapes], [normalizeShapes], [getSizeFromShapes], [encodeSvgText],
    [shapesToSvg] and the exported function, here called [snapText].

    Modelling conventions.
    - A JavaScript number is a [num]: an exact rational, or one of
      [+Infinity], [-Infinity], [NaN].  Rounding and the sign of zero are
      outside the model.  The theorems therefore say about numbers only what
      binary64 keeps: they equate a result with the expression the code
      evaluates, compare numbers, or rest on operations that are exact in
      binary64 ([c - c], [c + 0], [c * 1], halving and doubling).
    - [undefined] is [None]; a value that is a number or [undefined] is an
      [option num].
    - A JavaScript string is a [string]; one [ascii] stands for one code
      unit.
    - A [throw] (or a rejected promise of the [async] export) is the
      [Throw] outcome of the [outcome] monad. *)

From Stdlib Require Import ZArith QArith Qcanon String Ascii DecimalString DecimalNat
  List Bool Lia.
From stdpp Require Import base option list strings numbers.

Local Open Scope Qc_scope.

(** ** Numbers *)

Inductive num : Type :=
| Fin (q : Qc)
| PInf
| NInf
| NaN.

#[global] Instance num_eq_dec : EqDecision num.
Proof. solve_decision. Defined.

Definition of_Z (z : Z) : num := Fin (Qc_of_Z z).

(** [0.5] *)
Definition half : num := Fin (Q2Qc (1 # 2)).

(** [Number.MAX_SAFE_INTEGER] is 2^53 - 1. *)
Definition MAX_SAFE_INTEGER : num := of_Z 9007199254740991.

(** Truthiness of a number: [0] and [NaN] are falsy. *)
Definition truthy (a : num) : bool :=
  match a with
  | Fin q => negb (bool_decide (q = 0))
  | PInf | NInf => true
  | NaN => false
  end.

(** Truthiness of a number-or-undefined. *)
Definition truthy_opt (a : option num) : bool :=
  match a with
  | Some n => truthy n
  | None => false
  end.

(** [ToNumber]: [undefined] becomes [NaN]. *)
Definition ToNumber (a : option num) : num :=
  match a with
  | Some n => n
  | None => NaN
  end.

(** [a < b] *)
Definition ltb (a b : num) : bool :=
  match a, b with
  | NaN, _ | _, NaN => false
  | Fin p, Fin q => bool_decide (p < q)
  | Fin _, PInf => true
  | Fin _, NInf => false
  | PInf, _ => false
  | NInf, NInf => false
  | NInf, _ => true
  end.

(** [a > b] *)
Definition gtb (a b : num) : bool := ltb b a.

(** [a <= b] *)
Definition leb (a b : num) : bool :=
  match a, b with
  | NaN, _ | _, NaN => false
  | _, _ => negb (ltb b a)
  end.

(** [a + b] *)
Definition add (a b : num) : num :=
  match a, b with
  | NaN, _ | _, NaN => NaN
  | Fin p, Fin q => Fin (p + q)
  | PInf, NInf | NInf, PInf => NaN
  | PInf, _ | _, PInf => PInf
  | NInf, _ | _, NInf => NInf
  end.

(** [a - b] *)
Definition sub (a b : num) : num :=
  match a, b with
  | NaN, _ | _, NaN => NaN
  | Fin p, Fin q => Fin (p - q)
  | PInf, PInf | NInf, NInf => NaN
  | PInf, _ | _, NInf => PInf
  | NInf, _ | _, PInf => NInf
  end.

(** The infinity with the sign of [q], for [q] not zero. *)
Definition inf_like (q : Qc) : num :=
  if bool_decide (0 < q) then PInf else NInf.

(** [a * b] *)
Definition mul (a b : num) : num :=
  match a, b with
  | NaN, _ | _, NaN => NaN
  | Fin p, Fin q => Fin (p * q)
  | Fin p, PInf | PInf, Fin p =>
      if bool_decide (p = 0) then NaN else inf_like p
  | Fin p, NInf | NInf, Fin p =>
      if bool_decide (p = 0) then NaN else inf_like (- p)
  | PInf, PInf | NInf, NInf => PInf
  | PInf, NInf | NInf, PInf => NInf
  end.

(** [a / b]; a zero divisor counts as [+0]. *)
Definition div (a b : num) : num :=
  match a, b with
  | NaN, _ | _, NaN => NaN
  | Fin p, Fin q =>
      if bool_decide (q = 0)
      then (if bool_decide (p = 0) then NaN else inf_like p)
      else Fin (p / q)
  | Fin _, (PInf | NInf) => Fin 0
  | PInf, Fin q => if bool_decide (q < 0) then NInf else PInf
  | NInf, Fin q => if bool_decide (q < 0) then PInf else NInf
  | (PInf | NInf), (PInf | NInf) => NaN
  end.

(** [Math.min(a, b)] *)
Definition Math_min (a b : num) : num :=
  match a, b with
  | NaN, _ | _, NaN => NaN
  | _, _ => if ltb b a then b else a
  end.

(** [Math.min(a)]: with one argument the result is the argument. *)
Definition Math_min1 (a : num) : num := a.

Declare Scope num_scope.
Delimit Scope num_scope with num.
Bind Scope num_scope with num.
Infix "+" := add : num_scope.
Infix "-" := sub : num_scope.
Infix "*" := mul : num_scope.
Infix "/" := div : num_scope.
Infix "<?" := ltb : num_scope.
Infix "<=?" := leb : num_scope.

(** ** Outcomes: a value, or a thrown exception *)

Inductive Error : Type :=
| TypeError                      (* a property read on [undefined] *)
| Thrown (message : string)      (* [throw `...`] *)
| Rejected (reason : string).    (* a rejected promise of the raster boundary *)

Inductive outcome (A : Type) : Type :=
| Ok (a : A)
| Throw (e : Error).
Arguments Ok {A} a.
Arguments Throw {A} e.

#[global] Instance outcome_ret : MRet outcome := fun A a => Ok a.
#[global] Instance outcome_bind : MBind outcome := fun A B f m =>
  match m with
  | Ok a => f a
  | Throw e => Throw e
  end.

(** [Array.prototype.map] with a callback that may throw: the first
    exception, in index order, ends the traversal. *)
Fixpoint mapM_outcome {A B : Type} (f : A -> outcome B) (l : list A)
  : outcome (list B) :=
  match l with
  | [] => Ok []
  | a :: l' => b ← f a; bs ← mapM_outcome f l'; Ok (b :: bs)
  end.

(** ** Strings *)

Local Open Scope string_scope.

(** The white space of [String.prototype.trim] among the code units below
    256: TAB, LF, VT, FF, CR, SPACE and NO-BREAK SPACE. *)
Definition isWhiteSpace (c : ascii) : bool :=
  let n := nat_of_ascii c in
  ((9 <=? n)%nat && (n <=? 13)%nat) || (n =? 32)%nat || (n =? 160)%nat.

Fixpoint trimStart (s : string) : string :=
  match s with
  | EmptyString => EmptyString
  | String c s' => if isWhiteSpace c then trimStart s' else s
  end.

Fixpoint trimEnd (s : string) : string :=
  match s with
  | EmptyString => EmptyString
  | String c s' =>
      match trimEnd s' with
      | EmptyString => if isWhiteSpace c then EmptyString else String c EmptyString
      | r => String c r
      end
  end.

(** [s.trim()] *)
Definition trim (s : string) : string := trimEnd (trimStart s).

(** A string is falsy exactly when it is empty. *)
Definition nonEmpty (s : string) : bool :=
  match s with
  | EmptyString => false
  | String _ _ => true
  end.

(** A one-character string, the result of [text.charAt(i)] for [i] in range. *)
Definition charStr (c : ascii) : string := String c EmptyString.

(** ** The DOM boundary *)

(** A [DOMRect], read through [x], [y], [width] and [height]. *)
Module Rect.
Record t : Type := make { x : num; y : num; width : num; height : num }.
End Rect.

(** A [CSSStyleDeclaration], read through [getPropertyValue]. *)
Definition CSSStyleDeclaration : Type := string -> string.

(** A [Text] node.  [parentNode] is [None] for a node without parent and
    otherwise holds what the code reads from the parent, its computed
    style.  [getClientRects n] is the rectangle list of the range that
    starts at offset [0] and ends at offset [n] of the node. *)
Record Text : Type := {
  nodeValue : string;
  parentNode : option CSSStyleDeclaration;
  getClientRects : nat -> list Rect.t
}.

(** The node kinds other than element and text that can occur below an
    element; they have no children. *)
Inductive OtherKind : Type := CDATASection | ProcessingInstruction | Comment.

#[warnings="-register-all"]
Inductive Node : Type :=
| ElementNode (boundingClientRect : Rect.t) (children : list Node)
| TextNode (t : Text)
| OtherNode (k : OtherKind).

Definition nodeType (n : Node) : Z :=
  match n with
  | ElementNode _ _ => 1
  | TextNode _ => 3
  | OtherNode CDATASection => 4
  | OtherNode ProcessingInstruction => 7
  | OtherNode Comment => 8
  end%Z.

(** ** Shapes *)

Definition ShapeStyles : Type := list (string * string).

Module Shape.
Record t : Type := make {
  x : num;
  y : num;
  width : num;
  height : num;
  text : string;
  styles : ShapeStyles
}.
End Shape.

(** One entry of the result of [getTextNodeLines]; [rect] is [None] when
    [clientRects[index]] is [undefined]. *)
Module Line.
Record t : Type := make { rect : option Rect.t; text : string }.
End Line.

(** The styles we register *)
Definition RelevantShapeStyles : list (string * string) :=
  [ ("color", "rgba(0, 0, 0, 0)");
    ("background-color", "rgba(0, 0, 0, 0)");
    ("font-size", "0px");
    ("font-family", "sans-serif");
    ("font-weight", "400");
    ("font-style", "normal");
    ("font-variant", "normal") ].

(** The [styles] member of [toShape]: [map] leaves [undefined] where the
    value is the one to ignore and [filter(Boolean)] drops those entries;
    a pair is an array and always truthy. *)
Definition relevantStyles (style : CSSStyleDeclaration) : ShapeStyles :=
  omap (fun '(prop, valueToIgnore) =>
          let value := style prop in
          if String.eqb value valueToIgnore then None else Some (prop, value))
       RelevantShapeStyles.

(** Creates a Shape object using a rect, style declaration, and text *)
Definition toShape (rect : Rect.t) (style : CSSStyleDeclaration) (text : string)
  : Shape.t :=
  {| Shape.x := Rect.x rect;
     Shape.y := Rect.y rect;
     Shape.width := Rect.width rect;
     Shape.height := Rect.height rect;
     Shape.styles := relevantStyles style;
     Shape.text := text |}.

(** [toShape] called with a rectangle that may be [undefined]: reading
    [rect.x] of [undefined] throws a [TypeError]. *)
Definition toShape_call (rect : option Rect.t) (style : CSSStyleDeclaration)
  (text : string) : outcome Shape.t :=
  match rect with
  | Some r => Ok (toShape r style text)
  | None => Throw TypeError
  end.

(** ** [getTextNodeLines] *)

(** [lines[lineIndex]]: [undefined] for an index that is negative or not
    below the length. *)
Definition lineAt (lines : list string) (lineIndex : Z) : option string :=
  if bool_decide (0 ≤ lineIndex)%Z then lines !! Z.to_nat lineIndex else None.

(** The body of the loop after [lineIndex] and [char] are known:
    [if (!lines[lineIndex]) lines.push(char); else lines[lineIndex] += char;] *)
Definition addChar (lines : list string) (lineIndex : Z) (char : ascii)
  : list string :=
  match lineAt lines lineIndex with
  | Some line =>
      if nonEmpty line
      then <[Z.to_nat lineIndex := line +:+ charStr char]> lines
      else (lines ++ [charStr char])%list
  | None => (lines ++ [charStr char])%list
  end.

(** [which line are we at]: the number of rectangles of the range that ends
    after character [i], minus one. *)
Definition lineIndexAt (textNode : Text) (i : nat) : Z :=
  (Z.of_nat (length (getClientRects textNode (S i))) - 1)%Z.

(** The [for] loop, from index [i] on; [rest] is the text from [i]. *)
Fixpoint probeLoop (textNode : Text) (rest : string) (i : nat)
  (lines : list string) : list string :=
  match rest with
  | EmptyString => lines
  | String char rest' =>
      probeLoop textNode rest' (S i) (addChar lines (lineIndexAt textNode i) char)
  end.

(** Returns text node into line objects *)
Definition getTextNodeLines (textNode : Text) : list Line.t :=
  let text := nodeValue textNode in
  if negb (nonEmpty text) then [] else
  let textLength := String.length text in
  let lines := probeLoop textNode text 0 [] in
  (* merge text and rects *)
  let clientRects := getClientRects textNode textLength in
  imap (fun index line =>
          {| Line.rect := clientRects !! index; Line.text := line |}) lines.

(** Gets shapes for a text node *)
Definition getTextShapes (textNode : Text) : outcome (list Shape.t) :=
  (* empty so ignore *)
  if negb (nonEmpty (nodeValue textNode)) then Ok [] else
  match parentNode textNode with
  | None => Ok []
  | Some computedStyle =>
      let text := trim (nodeValue textNode) in
      if (String.length text =? 0)%nat then Ok [] else
      (* test if is multiline *)
      let textNodeLines := getTextNodeLines textNode in
      mapM_outcome
        (fun l => toShape_call (Line.rect l) computedStyle (Line.text l))
        (filter (fun l => (0 <? String.length (trim (Line.text l)))%nat = true)
                textNodeLines)
  end.

(** [shape.x -= offset.x; shape.y -= offset.y] *)
Definition offsetShape (offset : Rect.t) (shape : Shape.t) : Shape.t :=
  {| Shape.x := (Shape.x shape - Rect.x offset)%num;
     Shape.y := (Shape.y shape - Rect.y offset)%num;
     Shape.width := Shape.width shape;
     Shape.height := Shape.height shape;
     Shape.text := Shape.text shape;
     Shape.styles := Shape.styles shape |}.

(** Converts element into text shapes.  A shape is an object, so
    [filter(Boolean)] keeps every entry. *)
Definition getShape (element : Node) (offset : Rect.t) : outcome (list Shape.t) :=
  match element with
  | TextNode t => shapes ← getTextShapes t; Ok (map (offsetShape offset) shapes)
  | _ => Ok []
  end.

(** Recursively parses an element tree to find all shapes to render *)
Fixpoint getShapes (element : Node) (offset : Rect.t) {struct element}
  : outcome (list Shape.t) :=
  (* add self *)
  self ← getShape element offset;
  (* add children *)
  rest ← match element with
         | ElementNode _ nodes =>
             (fix ofChildren (nodes : list Node) : outcome (list Shape.t) :=
                match nodes with
                | [] => Ok []
                | node :: nodes' =>
                    a ← getShapes node offset;
                    b ← ofChildren nodes';
                    Ok (a ++ b)%list
                end) nodes
         | _ => Ok []
         end;
  Ok (self ++ rest)%list.

(** ** [normalizeShapes] and [getSizeFromShapes] *)

(** Offsets shapes to 0,0.  The source updates the shape objects in place
    and returns the same array; the shapes of one list are distinct objects
    (each comes from its own [toShape] call), so the update is a [map]. *)
Definition normalizeShapes (shapes : list Shape.t) : list Shape.t :=
  (* get most top left offset *)
  let '(l, t) :=
    fold_left
      (fun '(l, t) shape =>
         (if (Shape.x shape <? l)%num then Shape.x shape else l,
          if (Shape.y shape <? t)%num then Shape.y shape else t))
      shapes (MAX_SAFE_INTEGER, MAX_SAFE_INTEGER) in
  (* substract top left offset from all shapes *)
  map (fun shape =>
         {| Shape.x := (Shape.x shape - l)%num;
            Shape.y := (Shape.y shape - t)%num;
            Shape.width := Shape.width shape;
            Shape.height := Shape.height shape;
            Shape.text := Shape.text shape;
            Shape.styles := Shape.styles shape |})
      shapes.

Module Size.
Record t : Type := make { width : num; height : num }.
End Size.

(** Get max size required to draw shapes *)
Definition getSizeFromShapes (shapes : list Shape.t) : Size.t :=
  let '(l, t, r, b) :=
    fold_left
      (fun '(l, t, r, b) shape =>
         let l := if (Shape.x shape <? l)%num then Shape.x shape else l in
         let t := if (Shape.y shape <? t)%num then Shape.y shape else t in
         let r := if gtb (Shape.x shape + Shape.width shape)%num r
                  then (Shape.x shape + Shape.width shape)%num else r in
         let b := if gtb (Shape.y shape + Shape.height shape)%num b
                  then (Shape.y shape + Shape.height shape)%num else b in
         (l, t, r, b))
      shapes (MAX_SAFE_INTEGER, MAX_SAFE_INTEGER, of_Z 0, of_Z 0) in
  {| Size.width := (r - l)%num; Size.height := (b - t)%num |}.

(** ** [encodeSvgText] *)

(** Map CSS props to SVG style props: [CssSvgMap[prop] || prop], for the
    property names of [RelevantShapeStyles]. *)
Definition CssSvgMap (prop : string) : string :=
  if String.eqb prop "color" then "fill" else prop.

(** [str.replace(/c/g, by)] for a one-character pattern [c] and a
    replacement text without [$]. *)
Fixpoint replaceAll (c : ascii) (by_ : string) (str : string) : string :=
  match str with
  | EmptyString => EmptyString
  | String a str' =>
      if Ascii.eqb a c
      then by_ +:+ replaceAll c by_ str'
      else String a (replaceAll c by_ str')
  end.

(** Encodes SVG text content *)
Definition encodeSvgText (str : string) : string :=
  replaceAll ">" "&gt;"
    (replaceAll "<" "&lt;"
       (replaceAll " " "&#160;"
          (replaceAll "#" "%23"
             (replaceAll "%" "%25"
                (replaceAll "&" "&amp;" str))))).

(** ** [shapesToSvg] *)

(** A [<text x=".." y=".." class="..">..</text>] element. *)
Module TextElement.
Record t : Type := make { x : num; y : num; class : string; content : string }.
End TextElement.

(** The document that the final template literal of [shapesToSvg] spells
    out, kept as its parts: the [width] and [height] attributes, the four
    numbers of the [viewBox] (the last two print as [undefined] when the
    variable is), the text of the [<style>] element, the arguments of
    [translate] and [scale], and the [<text>] elements. *)
Module Svg.
Record t : Type := make {
  width : num;
  height : num;
  viewBox : num * num * option num * option num;
  styleText : string;
  translate : num;
  scale : num;
  textNodes : list TextElement.t
}.
End Svg.

(** The [selectors] map: a [Map] keeps its keys in insertion order. *)
Definition Selectors : Type := list (string * string).

Definition selectors_get (selectors : Selectors) (style : string) : option string :=
  snd <$> List.find (fun kv => String.eqb (fst kv) style) selectors.

Definition selectors_has (selectors : Selectors) (style : string) : bool :=
  bool_decide (is_Some (selectors_get selectors style)).

(** [selectors.set(style, name)] for a key that is not in the map. *)
Definition selectors_set (selectors : Selectors) (style name : string) : Selectors :=
  (selectors ++ [(style, name)])%list.

(** The decimal digits of a counter, as in ['s' + classCounter]. *)
Definition decimal (n : nat) : string :=
  DecimalString.NilZero.string_of_uint (Nat.to_uint n).

(** The style text of one shape. *)
Definition shapeStyle (shape : Shape.t) : string :=
  String.concat ";"
    (map (fun '(prop, value) => CssSvgMap prop +:+ ":" +:+ value)
         (Shape.styles shape))
  +:+ ";dominant-baseline: hanging".

(** The loop over the shapes: the text elements, the class counter and the
    selectors after it. *)
Definition collectText (shapes : list Shape.t)
  : list TextElement.t * nat * Selectors :=
  fold_left
    (fun '(textNodes, classCounter, selectors) shape =>
       (* needs text *)
       if negb (nonEmpty (Shape.text shape))
       then (textNodes, classCounter, selectors)
       else
         (* calculate style *)
         let style := shapeStyle shape in
         (* if not exists, generate class and add to styles *)
         let '(classCounter, selectors) :=
           if negb (selectors_has selectors style)
           then (S classCounter,
                 selectors_set selectors style ("s" +:+ decimal classCounter))
           else (classCounter, selectors) in
         (* add text node *)
         ((textNodes ++
           [ {| TextElement.x := Shape.x shape;
                TextElement.y := Shape.y shape;
                TextElement.class :=
                  default "undefined" (selectors_get selectors style);
                TextElement.content := encodeSvgText (Shape.text shape) |} ])%list,
          classCounter, selectors))
    shapes ([], 0%nat, []).

(** [typeof v === 'number'] for a value that is a number or [undefined]. *)
Definition isNumber (v : option num) : bool := bool_decide (is_Some v).

(** Converts shapes array to SVG string *)
Definition shapesToSvg (shapes : list Shape.t)
  (width height : option num) (padding scalar : num) : Svg.t :=
  (* calculate size *)
  let contentSize := getSizeFromShapes shapes in
  let padding :=
    if truthy_opt width && truthy padding
    then Math_min padding (ToNumber width * half)%num else padding in
  let padding :=
    if truthy_opt height && truthy padding
    then Math_min padding (ToNumber height * half)%num else padding in
  (* just quick shortcut *)
  let paddingDouble := (padding * of_Z 2)%num in
  (* if width/height defined -> calculate output size *)
  let '(width, height, contentScalar) :=
    if isNumber width || isNumber height then
      let aspectRatio := (Size.width contentSize / Size.height contentSize)%num in
      (* expand height *)
      if truthy_opt width && negb (truthy_opt height) then
        (width,
         Some ((ToNumber width - paddingDouble) / aspectRatio + paddingDouble)%num,
         Math_min1 ((ToNumber width - paddingDouble) / Size.width contentSize)%num)
      (* expand width *)
      else if truthy_opt height && negb (truthy_opt width) then
        (Some ((ToNumber height - paddingDouble) * aspectRatio + paddingDouble)%num,
         height,
         Math_min1 ((ToNumber height - paddingDouble) / Size.height contentSize)%num)
      (* both -> center *)
      else if truthy_opt width && truthy_opt height then
        (width, height,
         Math_min
           ((ToNumber height - paddingDouble) / Size.height contentSize)%num
           ((ToNumber width - paddingDouble) / Size.width contentSize)%num)
      else (width, height, of_Z 1)
    else
      (* No size requirements -> expand to add padding *)
      (Some (Size.width contentSize + paddingDouble)%num,
       Some (Size.height contentSize + paddingDouble)%num,
       of_Z 1) in
  (* Content *)
  let '(textNodes, _, selectors) := collectText shapes in
  let styleText :=
    String.concat (String "010" EmptyString)
      (map (fun '(style, selector) =>
              "." +:+ selector +:+ " { " +:+ style +:+ " }") selectors) in
  let x := ((Size.width contentSize * contentScalar - ToNumber width) * half
            + padding)%num in
  let y := ((Size.height contentSize * contentScalar - ToNumber height) * half
            + padding)%num in
  {| Svg.width := (ToNumber width * scalar)%num;
     Svg.height := (ToNumber height * scalar)%num;
     Svg.viewBox := (x, y, width, height);
     Svg.styleText := styleText;
     Svg.translate := padding;
     Svg.scale := contentScalar;
     Svg.textNodes := textNodes |}.

(** ** The exported function *)

(** [haystack] contains [needle]: what an unanchored regular expression
    made of one literal tests. *)
Fixpoint includes (needle haystack : string) : bool :=
  String.prefix needle haystack ||
  match haystack with
  | EmptyString => false
  | String _ rest => includes needle rest
  end.

(** [/canvas|img|svg|blob/.test(format)] *)
Definition formatTest (format : string) : bool :=
  includes "canvas" format || includes "img" format ||
  includes "svg" format || includes "blob" format.

(** [s] between double quotes (code unit 34), as the messages print it. *)
Definition quoted (s : string) : string :=
  String "034" (s +:+ String "034" EmptyString).

(** The first argument: a string or an object with a [nodeType]. *)
Inductive Target : Type :=
| Selector (querySelector : string)
| NodeObject (node : Node).

Module Options.
Record t : Type := make {
  format : option string;
  padding : option num;
  scalar : option num;
  width : option num;
  height : option num
}.
End Options.

(** What the browser contributes besides the tree: [document.querySelector]
    (which throws on a malformed selector and otherwise finds an element or
    [null]), whether an image decodes the document, and whether a canvas has
    a 2d context. *)
Module Browser.
Record t : Type := make {
  querySelector : string -> outcome (option Node);
  imageLoads : Svg.t -> bool;
  hasContext2d : bool
}.
End Browser.

(** The values the export resolves to. *)
Inductive Artifact : Type :=
| SvgElement (svg : Svg.t)
| Blob (svg : Svg.t)
| HTMLImageElement (svg : Svg.t)
| HTMLCanvasElement (svg : Svg.t)
| Undefined.

(** [element.getBoundingClientRect()]; only elements have the method. *)
Definition getBoundingClientRect (element : Node) : outcome Rect.t :=
  match element with
  | ElementNode r _ => Ok r
  | _ => Throw TypeError
  end.

(** Converts SVG string to image, will resolve with image in complete state *)
Definition svgToImage (browser : Browser.t) (blob : Svg.t) : outcome Svg.t :=
  if Browser.imageLoads browser blob then Ok blob else Throw (Rejected "error").

(** Draws image to canvas of size width/height *)
Definition imageToCanvas (browser : Browser.t) (image : Svg.t) : outcome Svg.t :=
  if Browser.hasContext2d browser then Ok image
  else Throw (Rejected "No drawing context").

(** The default export.  The promise it returns is the [outcome]: a value
    it resolves to, or what it throws or is rejected with. *)
Definition snapText (browser : Browser.t) (querySelectorOrNode : Target)
  (options : Options.t) : outcome Artifact :=
  (* validate input; if is queryString *)
  element ←
    match querySelectorOrNode with
    | NodeObject node =>
        if negb (nodeType node =? 1)%Z
        then Throw (Thrown "Need to supply a querySelector or HTMLElement")
        else Ok node
    | Selector sel =>
        found ← Browser.querySelector browser sel;
        match found with
        | Some element => Ok element
        | None =>
            Throw (Thrown ("No element found with selector " +:+ quoted sel))
        end
    end;
  (* get options *)
  let format := default "canvas" (Options.format options) in
  let padding := default (of_Z 0) (Options.padding options) in
  let scalar := default (of_Z 1) (Options.scalar options) in
  let width := Options.width options in
  let height := Options.height options in
  (* invalid format supplied *)
  if negb (formatTest format)
  then Throw (Thrown ("Invalid format " +:+ quoted format))
  else
    (* parse all subelements *)
    offset ← getBoundingClientRect element;
    collected ← getShapes element offset;
    let shapes := normalizeShapes collected in
    (* create svg *)
    let svg := shapesToSvg shapes width height padding scalar in
    if String.eqb format "svg" then Ok (SvgElement svg) else
    (* create blob *)
    let blob := svg in
    if String.eqb format "blob" then Ok (Blob blob) else
    (* create image *)
    image ← svgToImage browser blob;
    if String.eqb format "img" then Ok (HTMLImageElement image) else
    (* create canvas *)
    canvas ← imageToCanvas browser image;
    if String.eqb format "canvas" then Ok (HTMLCanvasElement canvas) else
    Ok Undefined.

(** * Vocabulary of the statements *)

(** ** The text encoder *)

(** [c] occurs in [s]. *)
Fixpoint occurs (c : ascii) (s : string) : bool :=
  match s with
  | EmptyString => false
  | String a s' => Ascii.eqb a c || occurs c s'
  end.

(** The escape of one character. *)
Definition escapeChar (c : ascii) : string :=
  if Ascii.eqb c "&" then "&amp;"
  else if Ascii.eqb c "%" then "%25"
  else if Ascii.eqb c "#" then "%23"
  else if Ascii.eqb c " " then "&#160;"
  else if Ascii.eqb c "<" then "&lt;"
  else if Ascii.eqb c ">" then "&gt;"
  else charStr c.

(** One pass over the text that escapes each character on its own. *)
Fixpoint escapeEach (s : string) : string :=
  match s with
  | EmptyString => EmptyString
  | String a s' => escapeChar a +:+ escapeEach s'
  end.

(** The characters the encoder replaces. *)
Definition special (c : ascii) : bool :=
  Ascii.eqb c "&" || Ascii.eqb c "%" || Ascii.eqb c "#" ||
  Ascii.eqb c " " || Ascii.eqb c "<" || Ascii.eqb c ">".

(** The texts the encoder puts in place of a character. *)
Definition produced : list string :=
  ["&amp;"; "%25"; "%23"; "&#160;"; "&lt;"; "&gt;"].

(** A text made of produced escapes and of characters that are not
    special: every [&], [%] and [#] of such a text lies inside an escape. *)
Inductive Escaped : string -> Prop :=
| Escaped_nil : Escaped EmptyString
| Escaped_plain c s : special c = false -> Escaped s -> Escaped (String c s)
| Escaped_entity e s : e ∈ produced -> Escaped s -> Escaped (e +:+ s).


(** ** The style filter *)

(** The computed style in which every registered property has the value to
    ignore. *)
Definition defaultStyle : CSSStyleDeclaration :=
  fun prop => default "" (snd <$> List.find (fun kv => String.eqb (fst kv) prop)
                                            RelevantShapeStyles).

(** [style] with the value of [prop] changed to [value]. *)
Definition withProperty (style : CSSStyleDeclaration) (prop value : string)
  : CSSStyleDeclaration :=
  fun p => if String.eqb p prop then value else style p.

(** ** Line probing *)

(** The characters of [rest], the text from index [i] on, whose line index
    is [k], in the order of the text. *)
Fixpoint charsOfLine (textNode : Text) (k : nat) (rest : string) (i : nat)
  : string :=
  match rest with
  | EmptyString => EmptyString
  | String char rest' =>
      if bool_decide (lineIndexAt textNode i = Z.of_nat k)
      then String char (charsOfLine textNode k rest' (S i))
      else charsOfLine textNode k rest' (S i)
  end.

(** The rectangle counts grow one line at a time: from index [i] on, with
    [m] buffers so far, each count is at least one and at most one more
    than the number of buffers. *)
Fixpoint regular (textNode : Text) (rest : string) (i m : nat) : Prop :=
  match rest with
  | EmptyString => True
  | String _ rest' =>
      let n := length (getClientRects textNode (S i)) in
      (1 <= n <= S m)%nat /\ regular textNode rest' (S i) (Nat.max m n)
  end.

(** The number of buffers after the text from index [i] on, with [m]
    buffers so far: the largest rectangle count. *)
Fixpoint lineCount (textNode : Text) (rest : string) (i m : nat) : nat :=
  match rest with
  | EmptyString => m
  | String _ rest' =>
      lineCount textNode rest' (S i)
        (Nat.max m (length (getClientRects textNode (S i))))
  end.

(** The text from index [i] on measures one rectangle at every prefix. *)
Definition singleRect (textNode : Text) (rest : string) (i : nat) : Prop :=
  forall j, (i <= j < i + String.length rest)%nat ->
            length (getClientRects textNode (S j)) = 1%nat.

(** A rectangle of a line of text: 10 high, at row [row]. *)
Definition lineRect (row width : Z) : Rect.t :=
  {| Rect.x := of_Z 0; Rect.y := of_Z (10 * row);
     Rect.width := of_Z width; Rect.height := of_Z 10 |}.

(** A text node [ab] whose range measures one rectangle up to [a] and three
    rectangles up to [b]. *)
Definition jumpingText : Text :=
  {| nodeValue := "ab";
     parentNode := Some defaultStyle;
     getClientRects := fun n =>
       if (n <=? 1)%nat then [lineRect 0 8]
       else [lineRect 0 8; lineRect 1 0; lineRect 2 8] |}.

(** A text node [ab cd] that wraps after the space. *)
Definition wrappedText : Text :=
  {| nodeValue := "ab cd";
     parentNode := Some defaultStyle;
     getClientRects := fun n =>
       if (n <=? 3)%nat then [lineRect 0 (8 * Z.of_nat n)]
       else [lineRect 0 24; lineRect 1 (8 * (Z.of_nat n - 3))] |}.

(** A text node [hello] on one line. *)
Definition helloText : Text :=
  {| nodeValue := "hello";
     parentNode := Some defaultStyle;
     getClientRects := fun n => [lineRect 0 (8 * Z.of_nat n)] |}.

(** A text node [ab] inside an element that is not rendered: every range
    measures no rectangle. *)
Definition hiddenText : Text :=
  {| nodeValue := "ab";
     parentNode := Some defaultStyle;
     getClientRects := fun _ => [] |}.

(** ** Normalization *)

(** [Number.isFinite] *)
Definition isFinite (n : num) : bool :=
  match n with
  | Fin _ => true
  | _ => false
  end.

(** Both coordinates of the shape are finite numbers. *)
Definition finiteShape (shape : Shape.t) : Prop :=
  isFinite (Shape.x shape) = true /\ isFinite (Shape.y shape) = true.

(** The smallest value of [f] over the shapes is zero. *)
Definition minIsZero (f : Shape.t -> num) (shapes : list Shape.t) : Prop :=
  Exists (fun shape => f shape = of_Z 0) shapes
  /\ Forall (fun shape => (of_Z 0 <=? f shape)%num = true) shapes.

(** One of the two running minima of the first loop of [normalizeShapes]. *)
Definition minFrom (f : Shape.t -> num) (init : num) (shapes : list Shape.t)
  : num :=
  fold_left (fun l shape => if (f shape <? l)%num then f shape else l) shapes init.

(** A shape 8 wide and 10 high with text [a]. *)
Definition shapeAt (x y : Z) : Shape.t :=
  {| Shape.x := of_Z x; Shape.y := of_Z y;
     Shape.width := of_Z 8; Shape.height := of_Z 10;
     Shape.text := "a"; Shape.styles := [] |}.

(** One shape whose left edge is at 2^53, one past [MAX_SAFE_INTEGER]. *)
Definition farShapes : list Shape.t := [shapeAt 9007199254740992 0].

(** ** Projection *)




(** The third and fourth number of the [viewBox]: the resolved output width
    and height. *)
Definition outputWidth (svg : Svg.t) : option num := (Svg.viewBox svg).1.2.

Definition outputHeight (svg : Svg.t) : option num := (Svg.viewBox svg).2.

(** One shape with content extents 100 by 50. *)
Definition contentShapes : list Shape.t :=
  [ {| Shape.x := of_Z 0; Shape.y := of_Z 0;
       Shape.width := of_Z 100; Shape.height := of_Z 50;
       Shape.text := "hello"; Shape.styles := [] |} ].

(** ** The exported function *)

(** A browser without matching elements, in which images decode and a
    canvas has a 2d context. *)
Definition workingBrowser : Browser.t :=
  {| Browser.querySelector := fun _ => Ok None;
     Browser.imageLoads := fun _ => true;
     Browser.hasContext2d := true |}.

(** The options object [{}]. *)
Definition noOptions : Options.t :=
  {| Options.format := None; Options.padding := None; Options.scalar := None;
     Options.width := None; Options.height := None |}.

(** The options object [{ format }]. *)
Definition formatOption (format : string) : Options.t :=
  {| Options.format := Some format; Options.padding := None;
     Options.scalar := None; Options.width := None; Options.height := None |}.

(** An element, 40 by 10 at the origin, around one text node. *)
Definition elementAround (t : Text) : Node :=
  ElementNode (lineRect 0 40) [TextNode t].

(** ** Tactics *)

(** Membership in a list that is written out. *)
Ltac in_list := apply list_elem_of_In; simpl; tauto.

(** Closed equations between numbers: rationals are compared through their
    canonical forms. *)
Ltac eq_num :=
  lazymatch goal with
  | |- @eq Qc _ _ => apply Qc_is_canon; vm_compute; reflexivity
  | |- _ => first [reflexivity | f_equal; eq_num]
  end.


(** * Vocabulary of the further properties *)

(** Some character of [s] is one the encoder replaces. *)
Fixpoint hasSpecial (s : string) : bool :=
  match s with
  | EmptyString => false
  | String a s' => special a || hasSpecial s'
  end.

(** The number of characters in all buffers. *)
Definition totalLength (lines : list string) : nat :=
  foldr (fun line n => (String.length line + n)%nat) 0%nat lines.

(** The buffers one after the other. *)
Fixpoint joinLines (lines : list string) : string :=
  match lines with
  | [] => EmptyString
  | line :: lines' => line +:+ joinLines lines'
  end.

(** The rectangle counts follow the reading order: from index [i] on, with
    [m] buffers so far, each count is at least one and is [m] (the
    character stays on the last line) or [m + 1] (it starts the next). *)
Fixpoint inReadingOrder (textNode : Text) (rest : string) (i m : nat) : Prop :=
  match rest with
  | EmptyString => True
  | String _ rest' =>
      let n := length (getClientRects textNode (S i)) in
      (1 <= n)%nat /\ (n = m \/ n = S m)
      /\ inReadingOrder textNode rest' (S i) n
  end.

(** The text has a character that is not white space:
    [text.trim().length > 0]. *)
Definition notBlank (text : string) : bool :=
  (0 <? String.length (trim text))%nat.

(** The shapes of the lines that are not blank and have a rectangle, in the
    order of the lines. *)
Definition shapesOfLines (computedStyle : CSSStyleDeclaration)
  (lines : list Line.t) : list Shape.t :=
  omap (fun l =>
          if notBlank (Line.text l)
          then (fun r => toShape r computedStyle (Line.text l)) <$> Line.rect l
          else None)
       lines.

(** The text nodes of a tree in document order: a node before its
    children, the children from first to last. *)
Fixpoint textNodesOf (element : Node) : list Text :=
  match element with
  | TextNode t => [t]
  | ElementNode _ nodes =>
      (fix ofNodes (nodes : list Node) : list Text :=
         match nodes with
         | [] => []
         | node :: nodes' => (textNodesOf node ++ ofNodes nodes')%list
         end) nodes
  | OtherNode _ => []
  end.

(** What every shape of a tree satisfies: its text is not blank and its
    styles are the filtered styles of some computed style. *)
Definition collectedShape (shape : Shape.t) : Prop :=
  notBlank (Shape.text shape) = true
  /\ exists computedStyle, Shape.styles shape = relevantStyles computedStyle.

(** The shapes that the projector draws: those with a text that is not
    empty. *)
Definition drawn (shapes : list Shape.t) : list Shape.t :=
  List.filter (fun shape => nonEmpty (Shape.text shape)) shapes.

(** The name of the class with number [i]. *)
Definition className (i : nat) : string := "s" +:+ decimal i.

(** The style texts in the order of their first occurrence, after those
    already [seen]. *)
Definition seenFrom (seen : list string) (styles : list string) : list string :=
  fold_left (fun seen style =>
               if bool_decide (style ∈ seen) then seen else (seen ++ [style])%list)
            styles seen.

(** The rules of the style texts [keys], numbered from [i]. *)
Fixpoint rulesFrom (i : nat) (keys : list string) : Selectors :=
  match keys with
  | [] => []
  | style :: keys' => (style, className i) :: rulesFrom (S i) keys'
  end.

(** The rules of a shape list: one for each style text of a drawn shape,
    in the order of first occurrence, named [s0], [s1], ... *)
Definition classRules (shapes : list Shape.t) : Selectors :=
  rulesFrom 0 (seenFrom [] (map shapeStyle (drawn shapes))).

(** The text element of a shape, with the class that [rules] give to its
    style text. *)
Definition textElement (rules : Selectors) (shape : Shape.t) : TextElement.t :=
  {| TextElement.x := Shape.x shape;
     TextElement.y := Shape.y shape;
     TextElement.class :=
       default "undefined" (selectors_get rules (shapeStyle shape));
     TextElement.content := encodeSvgText (Shape.text shape) |}.

(** One rule of the [<style>] element. *)
Definition ruleText (rule : string * string) : string :=
  "." +:+ snd rule +:+ " { " +:+ fst rule +:+ " }".






(** The format that the export works with: the option, or [canvas]. *)
Definition formatOf (options : Options.t) : string :=
  default "canvas" (Options.format options).

(** The document that the export builds from the shapes of an element. *)
Definition documentOf (shapes : list Shape.t) (options : Options.t) : Svg.t :=
  shapesToSvg (normalizeShapes shapes)
    (Options.width options) (Options.height options)
    (default (of_Z 0) (Options.padding options))
    (default (of_Z 1) (Options.scalar options)).

(** The element that the export works on, when the target is accepted. *)
Definition targetElement (browser : Browser.t) (target : Target) : option Node :=
  match target with
  | NodeObject node => if (nodeType node =? 1)%Z then Some node else None
  | Selector sel =>
      match Browser.querySelector browser sel with
      | Ok (Some element) => Some element
      | _ => None
      end
  end.

(** ** Inputs *)

(** A text node of two spaces, and a text node that has no parent. *)
Definition blankText : Text :=
  {| nodeValue := "  ";
     parentNode := Some defaultStyle;
     getClientRects := fun n => [lineRect 0 (8 * Z.of_nat n)] |}.

Definition orphanText : Text :=
  {| nodeValue := "hello";
     parentNode := None;
     getClientRects := fun n => [lineRect 0 (8 * Z.of_nat n)] |}.

(** A shape 8 wide and 10 high on the first row. *)
Definition styledShape (x : Z) (text : string) (styles : ShapeStyles) : Shape.t :=
  {| Shape.x := of_Z x; Shape.y := of_Z 0;
     Shape.width := of_Z 8; Shape.height := of_Z 10;
     Shape.text := text; Shape.styles := styles |}.

(** Three shapes; the first and the third are red. *)
Definition styledShapes : list Shape.t :=
  [ styledShape 0 "a" [("color", "red")];
    styledShape 8 "b" [];
    styledShape 16 "c" [("color", "red")] ].

(** A browser in which no image decodes and no canvas has a 2d context. *)
Definition brokenBrowser : Browser.t :=
  {| Browser.querySelector := fun _ => Ok None;
     Browser.imageLoads := fun _ => false;
     Browser.hasContext2d := false |}.

(** * Properties *)

(** ** Strings *)

Lemma append_cons a (s1 s2 : string) :
  String a s1 +:+ s2 = String a (s1 +:+ s2).
Proof. reflexivity. Qed.

Lemma append_assoc (s1 s2 s3 : string) :
  (s1 +:+ s2) +:+ s3 = s1 +:+ (s2 +:+ s3).
Proof.
  induction s1 as [|a s1 IH]; [done|]. by rewrite !append_cons, IH.
Qed.

Lemma append_empty_r (s : string) : s +:+ EmptyString = s.
Proof. induction s as [|a s IH]; [done|]. by rewrite append_cons, IH. Qed.

Lemma length_append (s1 s2 : string) :
  String.length (s1 +:+ s2) = (String.length s1 + String.length s2)%nat.
Proof.
  induction s1 as [|a s1 IH]; [done|]. rewrite append_cons. simpl. by rewrite IH.
Qed.

Lemma occurs_append c (s1 s2 : string) :
  occurs c (s1 +:+ s2) = occurs c s1 || occurs c s2.
Proof.
  induction s1 as [|a s1 IH]; [done|].
  rewrite append_cons. simpl. by rewrite IH, orb_assoc.
Qed.

Lemma replaceAll_app c by_ s1 s2 :
  replaceAll c by_ (s1 +:+ s2) = replaceAll c by_ s1 +:+ replaceAll c by_ s2.
Proof.
  induction s1 as [|a s1 IH]; [done|].
  rewrite append_cons. simpl.
  destruct (Ascii.eqb a c); rewrite IH; [|done].
  by rewrite append_assoc.
Qed.

Lemma replaceAll_absent c by_ s :
  occurs c s = false -> replaceAll c by_ s = s.
Proof.
  induction s as [|a s IH]; simpl; [done|].
  intros [Ha Hs]%orb_false_iff. rewrite Ha. by rewrite IH.
Qed.

Lemma encodeSvgText_app s1 s2 :
  encodeSvgText (s1 +:+ s2) = encodeSvgText s1 +:+ encodeSvgText s2.
Proof. unfold encodeSvgText. by rewrite !replaceAll_app. Qed.

Lemma encodeSvgText_char c : encodeSvgText (charStr c) = escapeChar c.
Proof.
  unfold encodeSvgText, escapeChar, charStr. simpl.
  destruct (Ascii.eqb_spec c "&") as [->|]; [done|].
  destruct (Ascii.eqb_spec c "%") as [->|]; [done|].
  destruct (Ascii.eqb_spec c "#") as [->|]; [done|].
  destruct (Ascii.eqb_spec c " ") as [->|]; [done|].
  destruct (Ascii.eqb_spec c "<") as [->|]; [done|].
  destruct (Ascii.eqb_spec c ">") as [->|]; [done|].
  simpl.
  repeat match goal with
         | H : c <> ?d |- context [Ascii.eqb c ?d] =>
             rewrite (proj2 (Ascii.eqb_neq c d) H); simpl
         end.
  done.
Qed.

Lemma encodeSvgText_escapeEach s : encodeSvgText s = escapeEach s.
Proof.
  induction s as [|a s IH]; [done|].
  change (String a s) with (charStr a +:+ s).
  rewrite encodeSvgText_app, encodeSvgText_char, IH. done.
Qed.

Lemma escapeChar_plain c : special c = false -> escapeChar c = charStr c.
Proof.
  unfold special, escapeChar. intros H.
  repeat (apply orb_false_iff in H as [H ?]).
  by repeat match goal with E : Ascii.eqb _ _ = false |- _ => rewrite E; clear E end.
Qed.

Lemma escapeChar_special c : special c = true -> escapeChar c ∈ produced.
Proof.
  unfold special, escapeChar, produced. intros H.
  destruct (Ascii.eqb c "&"); [in_list|].
  destruct (Ascii.eqb c "%"); [in_list|].
  destruct (Ascii.eqb c "#"); [in_list|].
  destruct (Ascii.eqb c " "); [in_list|].
  destruct (Ascii.eqb c "<"); [in_list|].
  destruct (Ascii.eqb c ">"); [in_list|].
  done.
Qed.

Lemma escapeEach_Escaped s : Escaped (escapeEach s).
Proof.
  induction s as [|a s IH]; simpl; [constructor|].
  destruct (special a) eqn:Ha.
  - apply Escaped_entity; [by apply escapeChar_special | done].
  - rewrite (escapeChar_plain a Ha). simpl. by constructor.
Qed.

Lemma Escaped_occurs c s :
  (c = "<" \/ c = ">" \/ c = " ")%char -> Escaped s -> occurs c s = false.
Proof.
  intros Hc. induction 1 as [|a s Ha _ IH|e s He _ IH]; simpl; [done| |].
  - rewrite IH, orb_false_r. apply Ascii.eqb_neq. intros ->.
    destruct Hc as [->| [->| ->]]; done.
  - rewrite occurs_append, IH, orb_false_r.
    unfold produced in He.
    repeat (apply elem_of_cons in He as [->|He]);
      [destruct Hc as [->| [->| ->]]; done ..|].
    by apply elem_of_nil in He.
Qed.

Lemma escapeChar_length c : (1 <= String.length (escapeChar c))%nat.
Proof.
  unfold escapeChar.
  repeat match goal with |- context [if ?b then _ else _] => destruct b end;
    simpl; lia.
Qed.

Lemma escapeEach_length s : (String.length s <= String.length (escapeEach s))%nat.
Proof.
  induction s as [|a s IH]; simpl; [done|].
  rewrite length_append. pose proof (escapeChar_length a). lia.
Qed.

Lemma escapeEach_longer s :
  occurs "&" s = true -> (String.length s < String.length (escapeEach s))%nat.
Proof.
  induction s as [|a s IH]; simpl; [done|].
  rewrite length_append.
  pose proof (escapeEach_length s) as Hl.
  pose proof (escapeChar_length a) as Hc.
  destruct (Ascii.eqb a "&") eqn:Ha; simpl.
  - intros _. apply Ascii.eqb_eq in Ha as ->.
    change (escapeChar "&") with "&amp;". simpl. lia.
  - intros Hs. specialize (IH Hs). lia.
Qed.

Lemma escapeEach_keeps_amp s :
  occurs "&" s = true -> occurs "&" (escapeEach s) = true.
Proof.
  induction s as [|a s IH]; simpl; [done|].
  rewrite occurs_append.
  destruct (Ascii.eqb a "&") eqn:Ha; simpl.
  - intros _. apply Ascii.eqb_eq in Ha as ->. done.
  - intros Hs. rewrite (IH Hs). apply orb_true_r.
Qed.

(** C8 (as stated) fails: the escapes of [%], [#] and the space contain a
    literal [%] or [#]. *)
Lemma encodeSvgText_keeps_percent_and_hash :
  encodeSvgText "A & B < 5% #1" = "A&#160;&amp;&#160;B&#160;&lt;&#160;5%25&#160;%231"
  /\ occurs "%" (encodeSvgText "A & B < 5% #1") = true
  /\ occurs "#" (encodeSvgText "A & B < 5% #1") = true.
Proof. repeat split; reflexivity. Qed.

(** C8 (amended): the encoder is the six replacements in the order
    ampersand, percent, hash, space, less-than, greater-than; its result is
    the text with each character escaped once on its own, so no character of
    a produced escape is escaped again; the result has no [<], [>] or space,
    and it is made of produced escapes and characters that are not special. *)
Theorem encodeSvgText_escapes (str : string) :
  encodeSvgText str =
    replaceAll ">" "&gt;" (replaceAll "<" "&lt;" (replaceAll " " "&#160;"
      (replaceAll "#" "%23" (replaceAll "%" "%25" (replaceAll "&" "&amp;" str)))))
  /\ encodeSvgText str = escapeEach str
  /\ occurs "<" (encodeSvgText str) = false
  /\ occurs ">" (encodeSvgText str) = false
  /\ occurs " " (encodeSvgText str) = false
  /\ Escaped (encodeSvgText str).
Proof.
  split; [reflexivity|]. split; [apply encodeSvgText_escapeEach|].
  rewrite encodeSvgText_escapeEach.
  pose proof (escapeEach_Escaped str) as H.
  repeat split; try done; apply Escaped_occurs; auto.
Qed.

(** C10: the encoder is not idempotent.  A second pass changes the result
    for the text [&], and for every text that contains an ampersand. *)
Theorem encodeSvgText_not_idempotent :
  (exists s, encodeSvgText (encodeSvgText s) <> encodeSvgText s)
  /\ encodeSvgText (encodeSvgText "&") = "&amp;amp;"
  /\ encodeSvgText "&" = "&amp;"
  /\ (forall s, occurs "&" s = true ->
        encodeSvgText (encodeSvgText s) <> encodeSvgText s).
Proof.
  assert (forall s, occurs "&" s = true ->
            encodeSvgText (encodeSvgText s) <> encodeSvgText s) as H.
  { intros s Hs E. rewrite !encodeSvgText_escapeEach in E.
    pose proof (escapeEach_longer _ (escapeEach_keeps_amp s Hs)) as Hl.
    rewrite E in Hl. lia. }
  split; [exists "&"; by apply H|]. repeat split; done.
Qed.

(** C10 at the text [a&b]. *)
Lemma encodeSvgText_not_idempotent_witness :
  occurs "&" "a&b" = true
  /\ encodeSvgText (encodeSvgText "a&b") <> encodeSvgText "a&b".
Proof.
  split; [reflexivity|].
  apply (proj2 (proj2 (proj2 encodeSvgText_not_idempotent))). reflexivity.
Defined.

(** ** The style filter *)

(** The filter of [toShape], over any property list. *)
Lemma styles_omap_elem (style : CSSStyleDeclaration)
  (l : list (string * string)) prop value :
  (prop, value) ∈
      omap (fun '(prop, valueToIgnore) =>
              let value := style prop in
              if String.eqb value valueToIgnore then None else Some (prop, value)) l
  <-> exists valueToIgnore,
        (prop, valueToIgnore) ∈ l /\ value = style prop /\ value <> valueToIgnore.
Proof.
  rewrite list_elem_of_omap. split.
  - intros [[p d] [Hin Hf]]. simpl in Hf.
    destruct (String.eqb_spec (style p) d) as [|Hne]; [done|].
    injection Hf as <- <-. eauto.
  - intros (d & Hin & -> & Hne). exists (prop, d). split; [done|]. simpl.
    by destruct (String.eqb_spec (style prop) d).
Qed.

Lemma styles_omap_sublist (style : CSSStyleDeclaration)
  (l : list (string * string)) :
  sublist
    (omap (fun '(prop, valueToIgnore) =>
             let value := style prop in
             if String.eqb value valueToIgnore then None else Some (prop, value)) l).*1
    l.*1.
Proof.
  induction l as [|[p d] l IH]; simpl; [constructor|].
  destruct (String.eqb (style p) d); simpl; by constructor.
Qed.

Lemma styles_omap_defaults (style : CSSStyleDeclaration)
  (l : list (string * string)) :
  (forall prop valueToIgnore,
      (prop, valueToIgnore) ∈ l -> style prop = valueToIgnore) ->
  omap (fun '(prop, valueToIgnore) =>
          let value := style prop in
          if String.eqb value valueToIgnore then None else Some (prop, value)) l
  = [].
Proof.
  induction l as [|[p d] l IH]; intros H; simpl; [done|].
  rewrite (H p d) by constructor. rewrite String.eqb_refl.
  apply IH. intros p' d' Hin. apply H. by constructor.
Qed.

Lemma styles_omap_single (style : CSSStyleDeclaration)
  (l : list (string * string)) prop valueToIgnore :
  NoDup l.*1 ->
  (prop, valueToIgnore) ∈ l ->
  style prop <> valueToIgnore ->
  (forall prop' ignore',
      (prop', ignore') ∈ l -> prop' <> prop -> style prop' = ignore') ->
  omap (fun '(prop, valueToIgnore) =>
          let value := style prop in
          if String.eqb value valueToIgnore then None else Some (prop, value)) l
  = [(prop, style prop)].
Proof.
  induction l as [|[p d] l IH]; intros Hnd Hin Hne Hrest.
  - by apply elem_of_nil in Hin.
  - simpl in Hnd. apply list.NoDup_cons in Hnd as [Hp Hnd].
    apply elem_of_cons in Hin as [Heq|Hin].
    + injection Heq as <- <-. simpl.
      destruct (String.eqb_spec (style prop) valueToIgnore); [done|].
      f_equal. apply styles_omap_defaults.
      intros p' d' Hin'. apply Hrest; [by constructor|].
      intros ->. apply Hp. by apply (list_elem_of_fmap_2 fst _ (prop, d')).
    + assert (p <> prop) as Hpp.
      { intros ->. apply Hp. by apply (list_elem_of_fmap_2 fst _ (prop, valueToIgnore)). }
      simpl. rewrite (Hrest p d) by (done || constructor).
      rewrite String.eqb_refl. apply IH; [done..|].
      intros p' d' Hin'. apply Hrest. by constructor.
Qed.

Lemma RelevantShapeStyles_NoDup : NoDup RelevantShapeStyles.*1.
Proof. apply NoDup_ListNoDup. simpl. repeat constructor; simpl; intuition discriminate. Qed.

(** C9: the [styles] of a shape hold a pair exactly for the properties of
    the fixed list whose value differs, as a string, from the value to
    ignore; they follow the order of the list; they are empty when every
    value is the default, and a single pair when exactly one property
    differs. *)
Theorem toShape_styles (rect : Rect.t) (style : CSSStyleDeclaration) (text : string) :
  RelevantShapeStyles.*1 =
    ["color"; "background-color"; "font-size"; "font-family";
     "font-weight"; "font-style"; "font-variant"]
  /\ (forall prop value,
        (prop, value) ∈ Shape.styles (toShape rect style text) <->
        exists valueToIgnore,
          (prop, valueToIgnore) ∈ RelevantShapeStyles
          /\ value = style prop /\ value <> valueToIgnore)
  /\ sublist (Shape.styles (toShape rect style text)).*1 RelevantShapeStyles.*1
  /\ ((forall prop valueToIgnore,
         (prop, valueToIgnore) ∈ RelevantShapeStyles -> style prop = valueToIgnore) ->
      Shape.styles (toShape rect style text) = [])
  /\ (forall prop valueToIgnore,
        (prop, valueToIgnore) ∈ RelevantShapeStyles ->
        style prop <> valueToIgnore ->
        (forall prop' ignore',
            (prop', ignore') ∈ RelevantShapeStyles -> prop' <> prop ->
            style prop' = ignore') ->
        Shape.styles (toShape rect style text) = [(prop, style prop)]).
Proof.
  split; [reflexivity|]. simpl. unfold relevantStyles.
  split; [intros; apply styles_omap_elem|].
  split; [apply styles_omap_sublist|].
  split; [apply styles_omap_defaults|].
  intros prop d Hin Hne Hrest.
  by apply (styles_omap_single style _ prop d RelevantShapeStyles_NoDup).
Qed.

(** ** Line probing *)

Section Probe.
Variable textNode : Text.

Lemma lines_of_lookups (lines : list string) :
  map (fun k => default EmptyString (lines !! k)) (seq 0 (length lines)) = lines.
Proof.
  apply list_eq. intros j. rewrite list_lookup_fmap.
  destruct (decide (j < length lines)%nat) as [Hlt|Hge].
  - rewrite lookup_seq_lt by done. simpl.
    destruct (lookup_lt_is_Some_2 lines j Hlt) as [x Hx]. by rewrite Hx.
  - rewrite lookup_seq_ge by lia. simpl. symmetry. apply lookup_ge_None. lia.
Qed.

Lemma lineIndexAt_nat i :
  lineIndexAt textNode i =
    (Z.of_nat (length (getClientRects textNode (S i))) - 1)%Z.
Proof. reflexivity. Qed.

(** A count within the buffers: the character joins its buffer. *)
Lemma addChar_existing (lines : list string) n line char :
  lines !! n = Some line -> nonEmpty line = true ->
  addChar lines (Z.of_nat (S n) - 1) char = <[n := line +:+ charStr char]> lines.
Proof.
  intros Hl Hne. unfold addChar, lineAt.
  replace (Z.of_nat (S n) - 1)%Z with (Z.of_nat n) by lia.
  rewrite bool_decide_eq_true_2 by lia. rewrite Nat2Z.id, Hl, Hne. done.
Qed.

(** A count one past the buffers: a new buffer, at that index. *)
Lemma addChar_new (lines : list string) char :
  addChar lines (Z.of_nat (S (length lines)) - 1) char
  = (lines ++ [charStr char])%list.
Proof.
  unfold addChar, lineAt.
  replace (Z.of_nat (S (length lines)) - 1)%Z with (Z.of_nat (length lines)) by lia.
  rewrite bool_decide_eq_true_2 by lia. rewrite Nat2Z.id.
  by rewrite (proj2 (lookup_ge_None lines (length lines))) by lia.
Qed.

Lemma probeLoop_regular rest : forall i (lines : list string),
  Forall (fun line => nonEmpty line = true) lines ->
  regular textNode rest i (length lines) ->
  probeLoop textNode rest i lines =
    map (fun k => default EmptyString (lines !! k)
                  +:+ charsOfLine textNode k rest i)
        (seq 0 (lineCount textNode rest i (length lines))).
Proof.
  induction rest as [|char rest IH]; intros i lines Hne Hreg; simpl.
  - rewrite <- (lines_of_lookups lines) at 1. apply map_ext.
    intros k. by rewrite append_empty_r.
  - simpl in Hreg. rewrite lineIndexAt_nat.
    remember (length (getClientRects textNode (S i))) as n eqn:Hn.
    destruct Hreg as [[Hlo Hhi] Hreg].
    destruct n as [|n]; [lia|].
    destruct (decide (n < length lines)%nat) as [Hin|Hout].
    + destruct (lookup_lt_is_Some_2 lines n Hin) as [line Hline].
      assert (nonEmpty line = true) as Hline_ne.
      { by eapply (proj1 (Forall_lookup _ lines) Hne). }
      rewrite (addChar_existing lines n line char Hline Hline_ne).
      rewrite Nat.max_l in * by lia.
      rewrite IH; rewrite ?length_insert; [| |done].
      * apply map_ext. intros k.
        replace (Z.of_nat (S n) - 1)%Z with (Z.of_nat n) by lia.
        destruct (decide (k = n)) as [->|Hk].
        -- rewrite bool_decide_eq_true_2 by done.
           rewrite list_lookup_insert_eq by done. rewrite Hline. simpl.
           by rewrite append_assoc.
        -- rewrite bool_decide_eq_false_2 by lia.
           by rewrite list_lookup_insert_ne by done.
      * apply Forall_insert; [done|]. by destruct line.
    + assert (n = length lines) as -> by lia.
      rewrite addChar_new.
      rewrite Nat.max_r in * by lia.
      rewrite IH; rewrite ?length_app; simpl;
        rewrite ?Nat.add_1_r; [| |done].
      * apply map_ext. intros k.
        replace (Z.of_nat (S (length lines)) - 1)%Z
          with (Z.of_nat (length lines)) by lia.
        destruct (decide (k = length lines)) as [->|Hk].
        -- rewrite bool_decide_eq_true_2 by done.
           rewrite list_lookup_middle by done.
           by rewrite (proj2 (lookup_ge_None lines (length lines))) by lia.
        -- rewrite bool_decide_eq_false_2 by lia.
           destruct (decide (k < length lines)%nat).
           ++ by rewrite lookup_app_l by done.
           ++ rewrite !(proj2 (lookup_ge_None _ k)); [done|lia|].
              rewrite length_app. simpl. lia.
      * apply Forall_app. split; [done|]. by repeat constructor.
Qed.

Lemma singleRect_tail char rest i :
  singleRect textNode (String char rest) i ->
  length (getClientRects textNode (S i)) = 1%nat /\ singleRect textNode rest (S i).
Proof.
  intros H. split.
  - apply H. simpl. lia.
  - intros j Hj. apply H. simpl. lia.
Qed.

Lemma singleRect_regular rest : forall i m,
  singleRect textNode rest i -> regular textNode rest i m.
Proof.
  induction rest as [|char rest IH]; intros i m H; simpl; [done|].
  apply singleRect_tail in H as [-> H]. split; [lia|]. by apply IH.
Qed.

Lemma singleRect_lineCount rest : forall i m,
  singleRect textNode rest i ->
  lineCount textNode rest i m = if nonEmpty rest then Nat.max m 1 else m.
Proof.
  induction rest as [|char rest IH]; intros i m H; simpl; [done|].
  apply singleRect_tail in H as [-> H]. rewrite IH by done.
  destruct (nonEmpty rest); lia.
Qed.

Lemma singleRect_charsOfLine rest : forall i,
  singleRect textNode rest i -> charsOfLine textNode 0 rest i = rest.
Proof.
  induction rest as [|char rest IH]; intros i H; simpl; [done|].
  apply singleRect_tail in H as [Hc H].
  rewrite lineIndexAt_nat, Hc. rewrite bool_decide_eq_true_2 by done.
  by rewrite IH.
Qed.

End Probe.

Lemma getTextNodeLines_imap (textNode : Text) :
  getTextNodeLines textNode =
    imap (fun index line =>
            {| Line.rect :=
                 getClientRects textNode (String.length (nodeValue textNode))
                   !! index;
               Line.text := line |})
         (probeLoop textNode (nodeValue textNode) 0 []).
Proof. unfold getTextNodeLines. by destruct (nodeValue textNode). Qed.

Lemma probeLoop_start (textNode : Text) :
  regular textNode (nodeValue textNode) 0 0 ->
  probeLoop textNode (nodeValue textNode) 0 [] =
    map (fun k => charsOfLine textNode k (nodeValue textNode) 0)
        (seq 0 (lineCount textNode (nodeValue textNode) 0 0)).
Proof.
  intros H. by rewrite (probeLoop_regular textNode _ 0 [] (Forall_nil_2 _) H).
Qed.

(** C1 (as stated) fails: the counts of [jumpingText] go from one to three,
    so the line index of [b] is 2, but [b] is pushed as the second buffer
    and leaves with the second rectangle; there is no entry at index 2. *)
Lemma getTextNodeLines_push_not_at_index :
  lineIndexAt jumpingText 1 = 2%Z
  /\ getTextNodeLines jumpingText =
       [ {| Line.rect := Some (lineRect 0 8); Line.text := "a" |};
         {| Line.rect := Some (lineRect 1 0); Line.text := "b" |} ]
  /\ getTextNodeLines jumpingText !! 2%nat = None.
Proof. repeat split; reflexivity. Qed.

(** C1 (amended): the result pairs, in ascending index order, the buffer at
    each index with the rectangle of the whole run at that index.  When the
    rectangle counts grow one line at a time, the buffer at index [k] holds
    exactly the characters whose rectangle count minus one is [k], in text
    order, and there are as many buffers as the largest count.  For a
    non-empty run that measures one rectangle at every prefix the result is
    one line with the whole text. *)
Theorem getTextNodeLines_buffers (textNode : Text) :
  let text := nodeValue textNode in
  let lines := probeLoop textNode text 0 [] in
  let clientRects := getClientRects textNode (String.length text) in
  (length (getTextNodeLines textNode) = length lines
   /\ forall index,
        getTextNodeLines textNode !! index =
          (fun line => {| Line.rect := clientRects !! index; Line.text := line |})
            <$> lines !! index)
  /\ (regular textNode text 0 0 ->
      length (getTextNodeLines textNode) = lineCount textNode text 0 0
      /\ forall k, (k < lineCount textNode text 0 0)%nat ->
           getTextNodeLines textNode !! k =
             Some {| Line.rect := clientRects !! k;
                     Line.text := charsOfLine textNode k text 0 |})
  /\ (text <> EmptyString ->
      (forall i, (i < String.length text)%nat ->
                 length (getClientRects textNode (S i)) = 1%nat) ->
      exists r, clientRects = [r]
                /\ getTextNodeLines textNode =
                     [ {| Line.rect := Some r; Line.text := text |} ]).
Proof.
  cbv zeta. split; [|split].
  - rewrite getTextNodeLines_imap. split; [by rewrite length_imap|].
    intros index. by rewrite list_lookup_imap.
  - intros H. rewrite getTextNodeLines_imap, (probeLoop_start textNode H). split.
    + by rewrite length_imap, length_map, length_seq.
    + intros k Hk.
      rewrite list_lookup_imap, list_lookup_fmap, lookup_seq_lt by done. done.
  - intros Htext Hone.
    assert (singleRect textNode (nodeValue textNode) 0) as Hs.
    { intros j Hj. apply Hone. lia. }
    rewrite getTextNodeLines_imap.
    rewrite (probeLoop_start textNode (singleRect_regular textNode _ 0 0 Hs)).
    rewrite (singleRect_lineCount textNode _ 0 0 Hs).
    pose proof (singleRect_charsOfLine textNode _ 0 Hs) as Hch.
    destruct (nodeValue textNode) as [|c rest] eqn:E; [done|].
    change (seq 0 (if nonEmpty (String c rest) then Nat.max 0 1 else 0))
      with [0%nat].
    cbn [map]. rewrite Hch. cbn [imap String.length].
    specialize (Hone (String.length rest)). simpl in Hone.
    destruct (getClientRects textNode (S (String.length rest))) as [|r [|? ?]];
      simpl in Hone; try lia.
    exists r. by split.
Qed.

(** ** Numbers *)

Lemma ltb_Fin (p q : Qc) : (Fin p <? Fin q)%num = bool_decide (p < q).
Proof. reflexivity. Qed.

Lemma leb_Fin (p q : Qc) : (Fin p <=? Fin q)%num = true <-> p <= q.
Proof.
  simpl. rewrite negb_true_iff, bool_decide_eq_false. split.
  - apply Qcnot_lt_le.
  - apply Qcle_not_lt.
Qed.

Lemma isFinite_Fin (n : num) : isFinite n = true -> exists q, n = Fin q.
Proof. destruct n; try done. eauto. Qed.

Lemma of_Z_0 : of_Z 0 = Fin 0.
Proof. unfold of_Z. by rewrite Z2Qc_inj_0. Qed.

Lemma sub_Fin (p q : Qc) : (Fin p - Fin q)%num = Fin (p - q).
Proof. reflexivity. Qed.

Lemma Qc_sub_self (q : Qc) : q - q = 0.
Proof. ring. Qed.

Lemma Qc_sub_zero (q : Qc) : q - 0 = q.
Proof. ring. Qed.

Lemma Qc_sub_nonneg (p q : Qc) : p <= q -> 0 <= q - p.
Proof. intros H. exact (proj1 (Qcle_minus_iff p q) H). Qed.

(** ** Normalization *)

Lemma fold_left_minima (shapes : list Shape.t) : forall l t,
  fold_left
    (fun '(l, t) shape =>
       (if (Shape.x shape <? l)%num then Shape.x shape else l,
        if (Shape.y shape <? t)%num then Shape.y shape else t))
    shapes (l, t)
  = (minFrom Shape.x l shapes, minFrom Shape.y t shapes).
Proof.
  unfold minFrom.
  induction shapes as [|s shapes IH]; intros l t; simpl; [done|]. by rewrite IH.
Qed.

Lemma normalizeShapes_minFrom (shapes : list Shape.t) :
  normalizeShapes shapes =
    map (fun shape =>
           {| Shape.x := (Shape.x shape - minFrom Shape.x MAX_SAFE_INTEGER shapes)%num;
              Shape.y := (Shape.y shape - minFrom Shape.y MAX_SAFE_INTEGER shapes)%num;
              Shape.width := Shape.width shape;
              Shape.height := Shape.height shape;
              Shape.text := Shape.text shape;
              Shape.styles := Shape.styles shape |})
        shapes.
Proof. unfold normalizeShapes. by rewrite fold_left_minima. Qed.

(** The running minimum over finite values: it is below the start and below
    every value, and it is the start or one of the values. *)
Lemma minFrom_finite (f : Shape.t -> num) (shapes : list Shape.t) : forall q0,
  Forall (fun shape => isFinite (f shape) = true) shapes ->
  exists q, minFrom f (Fin q0) shapes = Fin q
            /\ q <= q0
            /\ Forall (fun shape => exists qs, f shape = Fin qs /\ q <= qs) shapes
            /\ (q = q0 \/ Exists (fun shape => f shape = Fin q) shapes).
Proof.
  unfold minFrom.
  induction shapes as [|s shapes IH]; intros q0 Hfin; simpl.
  - exists q0. repeat split; [apply Qcle_refl | constructor | by left].
  - apply list.Forall_cons in Hfin as [Hs Hfin].
    apply isFinite_Fin in Hs as [qs Hqs]. rewrite Hqs, ltb_Fin.
    case_bool_decide as Hlt.
    + destruct (IH qs Hfin) as (q & -> & Hle & Hall & Hatt).
      exists q. repeat split.
      * apply Qcle_trans with qs; [done|]. by apply Qclt_le_weak.
      * constructor; [by exists qs|done].
      * right. destruct Hatt as [->|Hex]; [by left|by right].
    + apply Qcnot_lt_le in Hlt.
      destruct (IH q0 Hfin) as (q & -> & Hle & Hall & Hatt).
      exists q. repeat split; [done| |].
      * constructor; [|done]. exists qs. split; [done|].
        by apply Qcle_trans with q0.
      * destruct Hatt as [->|Hex]; [by left|by (right; right)].
Qed.

(** When some value is at most [MAX_SAFE_INTEGER], the running minimum that
    starts there is one of the values. *)
Lemma minFrom_attained (f : Shape.t -> num) (shapes : list Shape.t) :
  Forall (fun shape => isFinite (f shape) = true) shapes ->
  Exists (fun shape => (f shape <=? MAX_SAFE_INTEGER)%num = true) shapes ->
  exists q, minFrom f MAX_SAFE_INTEGER shapes = Fin q
            /\ Forall (fun shape => exists qs, f shape = Fin qs /\ q <= qs) shapes
            /\ Exists (fun shape => f shape = Fin q) shapes.
Proof.
  intros Hfin Hmax.
  destruct (minFrom_finite f shapes (Qc_of_Z 9007199254740991) Hfin)
    as (q & Hq & Hle & Hall & Hatt).
  exists q. split; [exact Hq|]. split; [done|].
  destruct Hatt as [->|Hex]; [|done].
  apply Exists_exists in Hmax as (s & Hin & Hs).
  apply Exists_exists. exists s. split; [done|].
  destruct (proj1 (Forall_forall _ _) Hall s Hin) as (qs & Hqs & Hge).
  rewrite Hqs in Hs |- *. apply leb_Fin in Hs.
  f_equal. by apply Qcle_antisym.
Qed.

(** Subtracting the attained minimum leaves a zero and nothing negative. *)
Lemma min_zero_after_sub (f : Shape.t -> num) (shapes : list Shape.t) (q : Qc) :
  Forall (fun shape => exists qs, f shape = Fin qs /\ q <= qs) shapes ->
  Exists (fun shape => f shape = Fin q) shapes ->
  Exists (fun shape => (f shape - Fin q)%num = of_Z 0) shapes
  /\ Forall (fun shape => (of_Z 0 <=? f shape - Fin q)%num = true) shapes.
Proof.
  intros Hall Hex. split.
  - apply Exists_exists in Hex as (s & Hin & Hs).
    apply Exists_exists. exists s. split; [done|].
    by rewrite Hs, sub_Fin, Qc_sub_self, of_Z_0.
  - apply Forall_forall. intros s Hin.
    destruct (proj1 (Forall_forall _ _) Hall s Hin) as (qs & -> & Hge).
    rewrite sub_Fin, of_Z_0. apply leb_Fin. by apply Qc_sub_nonneg.
Qed.

(** A minimum of zero is found by the first loop. *)
Lemma minFrom_zero (f : Shape.t -> num) (shapes : list Shape.t) :
  Forall (fun shape => isFinite (f shape) = true) shapes ->
  minIsZero f shapes ->
  minFrom f MAX_SAFE_INTEGER shapes = of_Z 0.
Proof.
  intros Hfin [Hex Hall].
  assert (Exists (fun shape => (f shape <=? MAX_SAFE_INTEGER)%num = true) shapes)
    as Hmax.
  { apply Exists_exists in Hex as (s & Hin & Hs).
    apply Exists_exists. exists s. split; [done|]. by rewrite Hs. }
  destruct (minFrom_attained f shapes Hfin Hmax) as (q & -> & Hle & Hatt).
  rewrite of_Z_0 in *. f_equal. apply Qcle_antisym.
  - apply Exists_exists in Hex as (s & Hin & Hs).
    destruct (proj1 (Forall_forall _ _) Hle s Hin) as (qs & Hqs & Hge).
    rewrite Hs in Hqs. injection Hqs as <-. done.
  - apply Exists_exists in Hatt as (s & Hin & Hs).
    pose proof (proj1 (Forall_forall _ _) Hall s Hin) as H0.
    cbv beta in H0. rewrite Hs in H0. by apply leb_Fin in H0.
Qed.

Lemma finiteShape_coords (shapes : list Shape.t) :
  Forall finiteShape shapes ->
  Forall (fun shape => isFinite (Shape.x shape) = true) shapes
  /\ Forall (fun shape => isFinite (Shape.y shape) = true) shapes.
Proof.
  intros H. split; eapply Forall_impl; try exact H; by intros s [? ?].
Qed.

(** A list whose minima are zero is left as it is. *)
Lemma normalizeShapes_fixed (shapes : list Shape.t) :
  Forall finiteShape shapes ->
  minIsZero Shape.x shapes -> minIsZero Shape.y shapes ->
  normalizeShapes shapes = shapes.
Proof.
  intros Hfin Hx Hy. pose proof (finiteShape_coords shapes Hfin) as [Hfx Hfy].
  rewrite normalizeShapes_minFrom.
  rewrite (minFrom_zero Shape.x shapes Hfx Hx), (minFrom_zero Shape.y shapes Hfy Hy).
  rewrite <- (map_id shapes) at 2. apply map_ext_in.
  intros [x y w h t st] Hin. simpl.
  pose proof (proj1 (Forall_forall _ _) Hfin _ Hin) as [Hxf Hyf].
  simpl in Hxf, Hyf.
  apply isFinite_Fin in Hxf as [qx ->]. apply isFinite_Fin in Hyf as [qy ->].
  rewrite of_Z_0, !sub_Fin. by rewrite !Qc_sub_zero.
Qed.

(** C7: the code misses the origin for [farShapes].  The running minima
    start at [MAX_SAFE_INTEGER] and not at [+Infinity]; the left edge of
    [farShapes] is above that start value, so 2^53 - 1 is subtracted and
    the smallest [x] after normalization is 1, against the function's own
    description (offset the shapes to 0,0 by the most top left offset). *)
Theorem normalizeShapes_far_not_zero :
  farShapes <> []
  /\ Shape.x <$> normalizeShapes farShapes = [of_Z 1]
  /\ ~ minIsZero Shape.x (normalizeShapes farShapes).
Proof.
  assert (Shape.x <$> normalizeShapes farShapes = [of_Z 1]) as H.
  { vm_compute. eq_num. }
  split; [done|]. split; [done|]. intros [Hex _].
  apply Exists_exists in Hex as (s & Hin & Hs).
  apply (in_map Shape.x) in Hin.
  change (In (Shape.x s) (Shape.x <$> normalizeShapes farShapes)) in Hin.
  rewrite H, Hs in Hin. destruct Hin as [Hin|[]].
  discriminate Hin.
Qed.

(** Below the start value the origin invariant of C7 holds: for shapes with
    finite coordinates of which some [x] and some [y] are at most
    [MAX_SAFE_INTEGER], the smallest [x] and the smallest [y] after
    normalization are exactly zero, and normalizing the result again
    changes no shape; more generally, every list of finite shapes whose
    smallest [x] and [y] are zero is left as it is. *)
Theorem normalizeShapes_origin (shapes : list Shape.t) :
  Forall finiteShape shapes ->
  Exists (fun shape => (Shape.x shape <=? MAX_SAFE_INTEGER)%num = true) shapes ->
  Exists (fun shape => (Shape.y shape <=? MAX_SAFE_INTEGER)%num = true) shapes ->
  minIsZero Shape.x (normalizeShapes shapes)
  /\ minIsZero Shape.y (normalizeShapes shapes)
  /\ normalizeShapes (normalizeShapes shapes) = normalizeShapes shapes
  /\ (forall normalized,
        Forall finiteShape normalized ->
        minIsZero Shape.x normalized -> minIsZero Shape.y normalized ->
        normalizeShapes normalized = normalized).
Proof.
  intros Hfin Hx Hy. pose proof (finiteShape_coords shapes Hfin) as [Hfx Hfy].
  destruct (minFrom_attained Shape.x shapes Hfx Hx) as (qx & Hqx & Hlx & Hax).
  destruct (minFrom_attained Shape.y shapes Hfy Hy) as (qy & Hqy & Hly & Hay).
  destruct (min_zero_after_sub Shape.x shapes qx Hlx Hax) as [Hx1 Hx2].
  destruct (min_zero_after_sub Shape.y shapes qy Hly Hay) as [Hy1 Hy2].
  assert (minIsZero Shape.x (normalizeShapes shapes)) as HX.
  { rewrite normalizeShapes_minFrom, Hqx, Hqy. split.
    - apply Exists_map. by simpl.
    - apply Forall_map. by simpl. }
  assert (minIsZero Shape.y (normalizeShapes shapes)) as HY.
  { rewrite normalizeShapes_minFrom, Hqx, Hqy. split.
    - apply Exists_map. by simpl.
    - apply Forall_map. by simpl. }
  split; [done|]. split; [done|]. split; [|apply normalizeShapes_fixed].
  apply normalizeShapes_fixed; [|done..].
  rewrite normalizeShapes_minFrom, Hqx, Hqy. apply Forall_map.
  apply Forall_forall. intros s Hin. split; simpl.
  - destruct (proj1 (Forall_forall _ _) Hlx s Hin) as (q & -> & _). done.
  - destruct (proj1 (Forall_forall _ _) Hly s Hin) as (q & -> & _). done.
Qed.

(** ** Projection *)

Lemma mul_comm (a b : num) : (a * b)%num = (b * a)%num.
Proof.
  destruct a as [p| | |], b as [q| | |]; simpl; try done.
  f_equal. ring.
Qed.

Lemma mul_1_r (a : num) : (a * of_Z 1)%num = a.
Proof.
  destruct a as [p| | |]; simpl; try done.
  rewrite Z2Qc_inj_1. f_equal. ring.
Qed.

(** The padding after the two clamps. *)
Lemma shapesToSvg_translate shapes width height padding scalar :
  Svg.translate (shapesToSvg shapes width height padding scalar) =
    let padding :=
      if truthy_opt width && truthy padding
      then Math_min padding (ToNumber width * half)%num else padding in
    if truthy_opt height && truthy padding
    then Math_min padding (ToNumber height * half)%num else padding.
Proof.
  unfold shapesToSvg.
  repeat match goal with
         | |- context [let '(_, _) := ?e in _] => destruct e
         end.
  reflexivity.
Qed.

(** The output size and the content scalar, by the branches of the code,
    over the clamped padding. *)
Lemma shapesToSvg_resolved shapes width height padding scalar :
  let svg := shapesToSvg shapes width height padding scalar in
  let contentSize := getSizeFromShapes shapes in
  let paddingDouble := (Svg.translate svg * of_Z 2)%num in
  let aspectRatio := (Size.width contentSize / Size.height contentSize)%num in
  (outputWidth svg, outputHeight svg, Svg.scale svg) =
    (if isNumber width || isNumber height then
       if truthy_opt width && negb (truthy_opt height) then
         (width,
          Some ((ToNumber width - paddingDouble) / aspectRatio + paddingDouble)%num,
          ((ToNumber width - paddingDouble) / Size.width contentSize)%num)
       else if truthy_opt height && negb (truthy_opt width) then
         (Some ((ToNumber height - paddingDouble) * aspectRatio + paddingDouble)%num,
          height,
          ((ToNumber height - paddingDouble) / Size.height contentSize)%num)
       else if truthy_opt width && truthy_opt height then
         (width, height,
          Math_min
            ((ToNumber height - paddingDouble) / Size.height contentSize)%num
            ((ToNumber width - paddingDouble) / Size.width contentSize)%num)
       else (width, height, of_Z 1)
     else
       (Some (Size.width contentSize + paddingDouble)%num,
        Some (Size.height contentSize + paddingDouble)%num,
        of_Z 1))
  /\ Svg.width svg = (ToNumber (outputWidth svg) * scalar)%num
  /\ Svg.height svg = (ToNumber (outputHeight svg) * scalar)%num.
Proof.
  cbv zeta. rewrite shapesToSvg_translate. unfold shapesToSvg.
  destruct (collectText shapes) as [[textNodes classCounter] selectors].
  unfold outputWidth, outputHeight, Math_min1.
  destruct (isNumber width || isNumber height);
    [destruct (truthy_opt width && negb (truthy_opt height));
     [|destruct (truthy_opt height && negb (truthy_opt width));
       [|destruct (truthy_opt width && truthy_opt height)]]|];
    done.
Qed.





(** C2 (as stated) fails: with a requested width of [0] and a requested
    height of 50 both dimensions are requested, but [0] is falsy and the
    code takes the branch of a height alone: it derives the width 100 from
    the aspect ratio and scales by 1, where the statement gives the scalar
    [min(50/50, 0/100) = 0] and the output width 0. *)
Lemma shapesToSvg_zero_width_is_derived :
  contentShapes <> []
  /\ getSizeFromShapes contentShapes
     = {| Size.width := of_Z 100; Size.height := of_Z 50 |}
  /\ Svg.scale (shapesToSvg contentShapes (Some (of_Z 0)) (Some (of_Z 50))
                  (of_Z 0) (of_Z 1)) = of_Z 1
  /\ Math_min ((of_Z 50 - of_Z 2 * of_Z 0) / of_Z 50)%num
              ((of_Z 0 - of_Z 2 * of_Z 0) / of_Z 100)%num = of_Z 0
  /\ outputWidth (shapesToSvg contentShapes (Some (of_Z 0)) (Some (of_Z 50))
                    (of_Z 0) (of_Z 1)) = Some (of_Z 100)
  /\ Svg.width (shapesToSvg contentShapes (Some (of_Z 0)) (Some (of_Z 50))
                  (of_Z 0) (of_Z 1)) = of_Z 100.
Proof. repeat split; try done; vm_compute; eq_num. Qed.

(** C2 (amended): over the clamped padding, a non-zero requested width
    without a (non-zero) height gives the output height
    [(width - 2*padding) / (contentWidth / contentHeight) + 2*padding] and
    the content scalar [(width - 2*padding) / contentWidth]; a non-zero
    width and a non-zero height together give the content scalar
    [min((height - 2*padding)/contentHeight, (width - 2*padding)/contentWidth)]
    and the requested width and height as output size, which the document
    declares multiplied by [scalar]; content 100 by 50 with padding 0 and
    width 200 gives height 100 and content scalar 2. *)
Theorem shapesToSvg_output_size shapes width height padding scalar :
  let svg := shapesToSvg shapes width height padding scalar in
  let contentWidth := Size.width (getSizeFromShapes shapes) in
  let contentHeight := Size.height (getSizeFromShapes shapes) in
  let padding' := Svg.translate svg in
  (forall w, width = Some w -> truthy w = true -> truthy_opt height = false ->
     outputWidth svg = Some w
     /\ outputHeight svg =
          Some ((w - of_Z 2 * padding') / (contentWidth / contentHeight)
                + of_Z 2 * padding')%num
     /\ Svg.scale svg = ((w - of_Z 2 * padding') / contentWidth)%num)
  /\ (forall w h, width = Some w -> height = Some h ->
      truthy w = true -> truthy h = true ->
      Svg.scale svg =
        Math_min ((h - of_Z 2 * padding') / contentHeight)%num
                 ((w - of_Z 2 * padding') / contentWidth)%num
      /\ outputWidth svg = Some w /\ outputHeight svg = Some h
      /\ Svg.width svg = (w * scalar)%num /\ Svg.height svg = (h * scalar)%num
      /\ (scalar = of_Z 1 -> Svg.width svg = w /\ Svg.height svg = h))
  /\ (contentWidth = of_Z 100 -> contentHeight = of_Z 50 ->
      width = Some (of_Z 200) -> height = None -> padding = of_Z 0 ->
      outputHeight svg = Some (of_Z 100) /\ Svg.scale svg = of_Z 2).
Proof.
  cbv zeta.
  destruct (shapesToSvg_resolved shapes width height padding scalar)
    as (Hres & Hwidth & Hheight).
  cbv zeta in Hres.
  rewrite (mul_comm (Svg.translate _) (of_Z 2)) in Hres.
  assert (forall w, width = Some w -> truthy w = true -> truthy_opt height = false ->
     outputWidth (shapesToSvg shapes width height padding scalar) = Some w
     /\ outputHeight (shapesToSvg shapes width height padding scalar) =
          Some ((w - of_Z 2 * Svg.translate (shapesToSvg shapes width height padding scalar))
                / (Size.width (getSizeFromShapes shapes)
                   / Size.height (getSizeFromShapes shapes))
                + of_Z 2 * Svg.translate (shapesToSvg shapes width height padding scalar))%num
     /\ Svg.scale (shapesToSvg shapes width height padding scalar) =
          ((w - of_Z 2 * Svg.translate (shapesToSvg shapes width height padding scalar))
           / Size.width (getSizeFromShapes shapes))%num) as Hwide.
  { intros w -> Hw Hh. simpl in Hres. rewrite Hw, Hh in Hres. simpl in Hres.
    injection Hres as -> -> ->. done. }
  split; [exact Hwide|]. split.
  - intros w h -> -> Hw Hh. simpl in Hres. rewrite Hw, Hh in Hres.
    simpl in Hres. injection Hres as How Hoh ->.
    rewrite Hwidth, Hheight, How, Hoh. simpl.
    split; [done|]. split; [done|]. split; [done|]. split; [done|].
    split; [done|]. intros ->. split; apply mul_1_r.
  - intros Hcw Hch -> -> ->.
    destruct (Hwide (of_Z 200) eq_refl eq_refl eq_refl) as (_ & -> & ->).
    rewrite Hcw, Hch.
    assert (Svg.translate (shapesToSvg shapes (Some (of_Z 200)) None (of_Z 0) scalar)
            = of_Z 0) as ->.
    { by rewrite shapesToSvg_translate. }
    split; vm_compute; eq_num.
Qed.

(** ** Projection of an empty shape list *)

(** C3: the code has no case for an empty shape list.  Without a requested
    size the start values of the extents reach the output: the declared
    width and height, and the output size in the [viewBox], are
    [0 - MAX_SAFE_INTEGER], a negative number.  The export reaches this
    state for an element without text. *)
Theorem shapesToSvg_empty_negative :
  getSizeFromShapes [] =
    {| Size.width := of_Z (-9007199254740991);
       Size.height := of_Z (-9007199254740991) |}
  /\ Svg.width (shapesToSvg [] None None (of_Z 0) (of_Z 1))
     = of_Z (-9007199254740991)
  /\ Svg.height (shapesToSvg [] None None (of_Z 0) (of_Z 1))
     = of_Z (-9007199254740991)
  /\ (Svg.width (shapesToSvg [] None None (of_Z 0) (of_Z 1)) <? of_Z 0)%num = true
  /\ (Svg.height (shapesToSvg [] None None (of_Z 0) (of_Z 1)) <? of_Z 0)%num = true
  /\ Svg.textNodes (shapesToSvg [] None None (of_Z 0) (of_Z 1)) = []
  /\ forall browser boundingClientRect,
       snapText browser (NodeObject (ElementNode boundingClientRect []))
         {| Options.format := Some "svg"; Options.padding := None;
            Options.scalar := None; Options.width := None;
            Options.height := None |}
       = Ok (SvgElement (shapesToSvg [] None None (of_Z 0) (of_Z 1))).
Proof. repeat split; try done; vm_compute; eq_num. Qed.

(** ** The format option *)

Lemma formatTest_names :
  formatTest "svg" = true /\ formatTest "canvas" = true
  /\ formatTest "img" = true /\ formatTest "blob" = true.
Proof. repeat split; reflexivity. Qed.

(** A format that the test rejects is reported before the tree is read:
    the outcome does not depend on the children of the element. *)
Lemma snapText_rejected_format browser boundingClientRect children options format :
  Options.format options = Some format ->
  formatTest format = false ->
  snapText browser (NodeObject (ElementNode boundingClientRect children)) options
  = Throw (Thrown ("Invalid format " +:+ quoted format)).
Proof. intros Hf Ht. unfold snapText. simpl. by rewrite Hf; simpl; rewrite Ht. Qed.

(** The traversal throws nothing but the [TypeError] of a missing
    rectangle. *)
Lemma mapM_outcome_throw_inv {A B : Type} (f : A -> outcome B) (l : list A) e :
  mapM_outcome f l = Throw e -> exists a, a ∈ l /\ f a = Throw e.
Proof.
  induction l as [|a l IH]; simpl; [done|].
  destruct (f a) as [b|e'] eqn:Ha; simpl.
  - destruct (mapM_outcome f l) as [bs|e'']; simpl; [done|].
    intros [= ->]. destruct IH as (a' & Hin & Ha'); [done|].
    exists a'. split; [by constructor|done].
  - intros [= ->]. exists a. split; [constructor|done].
Qed.

Lemma getTextShapes_throws (textNode : Text) e :
  getTextShapes textNode = Throw e -> e = TypeError.
Proof.
  unfold getTextShapes.
  destruct (negb _); [done|]. destruct (parentNode textNode); [|done].
  destruct (_ =? _)%nat; [done|].
  intros (l & _ & Hl)%mapM_outcome_throw_inv.
  unfold toShape_call in Hl. destruct (Line.rect l); by inversion Hl.
Qed.

Lemma getShapes_throws : forall (element : Node) offset e,
  getShapes element offset = Throw e -> e = TypeError.
Proof.
  fix IH 1. intros [rect children|t|k] offset e; simpl.
  - induction children as [|node children IHc]; simpl; [done|].
    destruct (getShapes node offset) as [a|e'] eqn:Hnode; simpl.
    + revert IHc.
      destruct ((fix ofChildren (nodes : list Node) : outcome (list Shape.t) :=
                   match nodes with
                   | [] => Ok []
                   | node :: nodes' =>
                       a ← getShapes node offset;
                       b ← ofChildren nodes';
                       Ok (a ++ b)%list
                   end) children) as [b|e'']; simpl; [done|].
      intros IHc [= ->]. by apply IHc.
    + intros [= ->]. by apply (IH node offset).
  - destruct (getTextShapes t) as [shapes|e'] eqn:Ht; simpl; [done|].
    intros [= ->]. by apply (getTextShapes_throws t).
  - done.
Qed.

(** A format that passes the test never leads to the format error, whatever
    else goes wrong; each of the four formats passes the test. *)
Lemma snapText_accepted_format browser node options format :
  Options.format options = Some format ->
  formatTest format = true ->
  snapText browser (NodeObject node) options
  <> Throw (Thrown ("Invalid format " +:+ quoted format)).
Proof.
  intros Hf Ht. unfold snapText. rewrite Hf. simpl.
  destruct (negb (nodeType node =? 1)%Z); simpl; [discriminate|].
  rewrite Ht. simpl.
  destruct (getBoundingClientRect node) as [offset|e] eqn:Hrect; simpl.
  2:{ destruct node; simpl in Hrect; by inversion Hrect. }
  destruct (getShapes node offset) as [collected|e] eqn:Hshapes; simpl.
  2:{ apply getShapes_throws in Hshapes as ->. discriminate. }
  destruct (String.eqb format "svg"); [discriminate|].
  destruct (String.eqb format "blob"); [discriminate|].
  unfold svgToImage. destruct (Browser.imageLoads browser _); simpl; [|discriminate].
  destruct (String.eqb format "img"); [discriminate|].
  unfold imageToCanvas. destruct (Browser.hasContext2d browser); simpl; [|discriminate].
  destruct (String.eqb format "canvas"); discriminate.
Qed.

(** C4: the test of the format is an unanchored regular expression, so a
    text that only contains one of the four names passes it.  For [svgx],
    which is none of the four formats, no error is raised: the tree is
    read, the document is built and rasterized, no branch returns, and the
    export resolves to [undefined]. *)
Theorem snapText_format_svgx_accepted :
  formatTest "svgx" = true
  /\ snapText workingBrowser (NodeObject (elementAround helloText))
       (formatOption "svgx") = Ok Undefined
  /\ snapText workingBrowser (NodeObject (elementAround helloText))
       (formatOption "svgx")
     <> Throw (Thrown ("Invalid format " +:+ quoted "svgx")).
Proof. repeat split; try done; vm_compute; reflexivity. Qed.

(** ** Text that cannot be measured *)

(** C5: when no range of the text node measures a rectangle, the line
    index of every character is -1, [lines[-1]] is [undefined], and every
    character is pushed as a line of its own; the rectangle of each line is
    [undefined], [toShape] reads [x] of it, and the [TypeError] reaches the
    caller of the export. *)
Theorem getTextShapes_unmeasured_throws :
  (forall n, getClientRects hiddenText n = [])
  /\ getTextNodeLines hiddenText =
       [ {| Line.rect := None; Line.text := "a" |};
         {| Line.rect := None; Line.text := "b" |} ]
  /\ getTextShapes hiddenText = Throw TypeError
  /\ forall browser,
       snapText browser (NodeObject (elementAround hiddenText)) noOptions
       = Throw TypeError.
Proof. repeat split; reflexivity. Qed.

(** The same for every text node without rectangles: one line per
    character, each without rectangle, and a [TypeError] from
    [getTextShapes] as soon as the text is not blank. *)
Lemma probeLoop_unmeasured (textNode : Text) rest : forall i lines,
  (forall n, getClientRects textNode n = []) ->
  probeLoop textNode rest i lines
  = (lines ++ map charStr (list_ascii_of_string rest))%list.
Proof.
  induction rest as [|char rest IH]; intros i lines H; simpl.
  - by rewrite app_nil_r.
  - rewrite IH by done. unfold lineIndexAt, addChar, lineAt. rewrite H. simpl.
    by rewrite <- app_assoc.
Qed.

Lemma getTextNodeLines_unmeasured (textNode : Text) :
  (forall n, getClientRects textNode n = []) ->
  getTextNodeLines textNode
  = map (fun char => {| Line.rect := None; Line.text := charStr char |})
        (list_ascii_of_string (nodeValue textNode)).
Proof.
  intros H. rewrite getTextNodeLines_imap, probeLoop_unmeasured by done.
  rewrite H. simpl. apply list_eq. intros j.
  rewrite list_lookup_imap, !list_lookup_fmap.
  by destruct (list_ascii_of_string (nodeValue textNode) !! j).
Qed.

Lemma trimStart_blank s :
  forallb isWhiteSpace (list_ascii_of_string s) = true -> trimStart s = EmptyString.
Proof.
  induction s as [|c s IH]; simpl; [done|].
  intros [Hc Hs]%andb_true_iff. rewrite Hc. by apply IH.
Qed.

Lemma forallb_false_exists {A : Type} (f : A -> bool) (l : list A) :
  forallb f l = false -> exists a, In a l /\ f a = false.
Proof.
  induction l as [|a l IH]; simpl; [done|].
  destruct (f a) eqn:Ha; simpl.
  - intros (b & Hin & Hb)%IH. eauto.
  - eauto.
Qed.

Lemma mapM_outcome_throws {A B : Type} (f : A -> outcome B) (l : list A) e :
  l <> [] -> (forall a, a ∈ l -> f a = Throw e) -> mapM_outcome f l = Throw e.
Proof.
  destruct l as [|a l]; [done|]. intros _ H. simpl.
  by rewrite (H a) by constructor.
Qed.

Lemma getTextShapes_unmeasured (textNode : Text) computedStyle :
  (forall n, getClientRects textNode n = []) ->
  parentNode textNode = Some computedStyle ->
  trim (nodeValue textNode) <> EmptyString ->
  getTextShapes textNode = Throw TypeError.
Proof.
  intros Hrects Hparent Htrim. unfold getTextShapes. rewrite Hparent.
  destruct (nodeValue textNode) as [|c0 rest0] eqn:Etext; [done|].
  rewrite <- Etext in *. simpl.
  destruct (trim (nodeValue textNode)) as [|c1 rest1] eqn:Etrim; [done|]. simpl.
  rewrite getTextNodeLines_unmeasured by done.
  rewrite Etext at 1. simpl.
  apply mapM_outcome_throws.
  - assert (forallb isWhiteSpace (list_ascii_of_string (nodeValue textNode)) = false)
      as Hblank.
    { destruct (forallb isWhiteSpace _) eqn:E; [|done].
      unfold trim in Etrim. by rewrite (trimStart_blank _ E) in Etrim. }
    apply forallb_false_exists in Hblank as (char & Hin & Hchar).
    intros Hnil.
    assert ({| Line.rect := None; Line.text := charStr char |} ∈
            filter (fun l => (0 <? String.length (trim (Line.text l)))%nat = true)
              (map (fun char => {| Line.rect := None; Line.text := charStr char |})
                   (list_ascii_of_string (nodeValue textNode)))) as Hmem.
    { apply list_elem_of_filter. split.
      - unfold trim. simpl. rewrite Hchar. simpl. by rewrite Hchar.
      - apply list_elem_of_In.
        by apply (in_map (fun char =>
                            {| Line.rect := None; Line.text := charStr char |})). }
    rewrite Hnil in Hmem. by apply elem_of_nil in Hmem.
  - intros l [_ Hl]%list_elem_of_filter.
    apply list_elem_of_fmap in Hl as (char & -> & _). done.
Qed.

(** ** The theorems at concrete inputs *)

(** C1 at [wrappedText], which wraps after the space, and at [helloText],
    which is one line. *)
Lemma getTextNodeLines_buffers_witness :
  regular wrappedText (nodeValue wrappedText) 0 0
  /\ getTextNodeLines wrappedText !! 0%nat =
       Some {| Line.rect := Some (lineRect 0 24); Line.text := "ab " |}
  /\ getTextNodeLines wrappedText !! 1%nat =
       Some {| Line.rect := Some (lineRect 1 16); Line.text := "cd" |}
  /\ exists r,
       getClientRects helloText (String.length (nodeValue helloText)) = [r]
       /\ getTextNodeLines helloText =
            [ {| Line.rect := Some r; Line.text := "hello" |} ].
Proof.
  assert (regular wrappedText (nodeValue wrappedText) 0 0) as Hreg.
  { simpl. repeat split; lia. }
  pose proof (getTextNodeLines_buffers wrappedText) as (_ & Hbuf & _).
  destruct (Hbuf Hreg) as [_ Hk].
  split; [exact Hreg|]. split; [|split].
  - rewrite (Hk 0%nat) by (simpl; lia). reflexivity.
  - rewrite (Hk 1%nat) by (simpl; lia). reflexivity.
  - apply (getTextNodeLines_buffers helloText); [done|].
    intros i _. reflexivity.
Defined.

(** C9 at the default style and at the default style with a bold weight. *)
Lemma toShape_styles_witness :
  Shape.styles (toShape (lineRect 0 40) defaultStyle "hello") = []
  /\ Shape.styles
       (toShape (lineRect 0 40) (withProperty defaultStyle "font-weight" "700")
                "hello")
     = [("font-weight", "700")].
Proof.
  split.
  - apply (toShape_styles (lineRect 0 40) defaultStyle "hello").
    intros prop valueToIgnore Hin. apply list_elem_of_In in Hin. simpl in Hin.
    repeat (destruct Hin as [Hin|Hin]; [by injection Hin as <- <-|]). done.
  - apply (proj2 (proj2 (proj2 (proj2
      (toShape_styles (lineRect 0 40)
         (withProperty defaultStyle "font-weight" "700") "hello"))))
      "font-weight" "400").
    + apply list_elem_of_In. simpl. tauto.
    + done.
    + intros prop' ignore' Hin Hne. apply list_elem_of_In in Hin. simpl in Hin.
      repeat (destruct Hin as [Hin|Hin];
              [injection Hin as <- <-; done || by destruct Hne|]).
      done.
Defined.

(** The origin invariant at two shapes, at (5, 7) and at (3, 9). *)
Lemma normalizeShapes_origin_witness :
  minIsZero Shape.x (normalizeShapes [shapeAt 5 7; shapeAt 3 9])
  /\ minIsZero Shape.y (normalizeShapes [shapeAt 5 7; shapeAt 3 9])
  /\ normalizeShapes (normalizeShapes [shapeAt 5 7; shapeAt 3 9])
     = normalizeShapes [shapeAt 5 7; shapeAt 3 9].
Proof.
  destruct (normalizeShapes_origin [shapeAt 5 7; shapeAt 3 9])
    as (Hx & Hy & Hfix & _).
  - repeat constructor.
  - left. reflexivity.
  - left. reflexivity.
  - exact (conj Hx (conj Hy Hfix)).
Defined.


(** C2 at content 100 by 50: width 200 alone without padding, and width 220
    with height 80 and padding 10. *)
Lemma shapesToSvg_output_size_witness :
  outputHeight (shapesToSvg contentShapes (Some (of_Z 200)) None (of_Z 0) (of_Z 1))
  = Some (of_Z 100)
  /\ Svg.scale (shapesToSvg contentShapes (Some (of_Z 200)) None (of_Z 0) (of_Z 1))
     = of_Z 2
  /\ outputWidth (shapesToSvg contentShapes (Some (of_Z 220)) (Some (of_Z 80))
                    (of_Z 10) (of_Z 1)) = Some (of_Z 220)
  /\ outputHeight (shapesToSvg contentShapes (Some (of_Z 220)) (Some (of_Z 80))
                     (of_Z 10) (of_Z 1)) = Some (of_Z 80)
  /\ Svg.width (shapesToSvg contentShapes (Some (of_Z 220)) (Some (of_Z 80))
                  (of_Z 10) (of_Z 1)) = of_Z 220
  /\ Svg.height (shapesToSvg contentShapes (Some (of_Z 220)) (Some (of_Z 80))
                   (of_Z 10) (of_Z 1)) = of_Z 80
  /\ Svg.scale (shapesToSvg contentShapes (Some (of_Z 220)) (Some (of_Z 80))
                  (of_Z 10) (of_Z 1)) = Fin (Q2Qc (6 # 5)).
Proof.
  pose proof (shapesToSvg_output_size contentShapes (Some (of_Z 200)) None
                (of_Z 0) (of_Z 1)) as (_ & _ & Hex).
  pose proof (shapesToSvg_output_size contentShapes (Some (of_Z 220))
                (Some (of_Z 80)) (of_Z 10) (of_Z 1)) as (_ & Hboth & _).
  destruct Hex as [Hh Hs];
    [vm_compute; eq_num | vm_compute; eq_num | reflexivity..|].
  destruct (Hboth (of_Z 220) (of_Z 80)) as (Hsc & How & Hoh & _ & _ & Hdecl);
    [reflexivity..|].
  destruct (Hdecl eq_refl) as [Hdw Hdh].
  assert (Svg.scale (shapesToSvg contentShapes (Some (of_Z 220)) (Some (of_Z 80))
                       (of_Z 10) (of_Z 1)) = Fin (Q2Qc (6 # 5))) as Hsc'.
  { rewrite Hsc. vm_compute. eq_num. }
  exact (conj Hh (conj Hs (conj How (conj Hoh (conj Hdw (conj Hdh Hsc')))))).
Defined.

(** * Further properties *)

(** ** The text encoder *)

Lemma escapeEach_app s1 s2 :
  escapeEach (s1 +:+ s2) = escapeEach s1 +:+ escapeEach s2.
Proof.
  induction s1 as [|a s1 IH]; [done|].
  rewrite append_cons. simpl. by rewrite IH, append_assoc.
Qed.

(** X1: the encoding of a concatenation is the concatenation of the
    encodings, and the empty text stays empty: a text can be encoded piece
    by piece. *)
Theorem encodeSvgText_concat (a b : string) :
  encodeSvgText (a +:+ b) = encodeSvgText a +:+ encodeSvgText b
  /\ encodeSvgText EmptyString = EmptyString.
Proof.
  split; [|reflexivity].
  rewrite !encodeSvgText_escapeEach. apply escapeEach_app.
Qed.

Lemma escapeChar_special_length c :
  special c = true -> (3 <= String.length (escapeChar c))%nat.
Proof.
  unfold special, escapeChar.
  repeat match goal with |- context [Ascii.eqb c ?d] => destruct (Ascii.eqb c d) end;
    simpl; (lia || done).
Qed.

Lemma escapeEach_plain s : hasSpecial s = false -> escapeEach s = s.
Proof.
  induction s as [|a s IH]; simpl; [done|].
  intros [Ha Hs]%orb_false_iff. by rewrite (escapeChar_plain a Ha), IH.
Qed.

Lemma escapeEach_special_longer s :
  hasSpecial s = true -> (String.length s < String.length (escapeEach s))%nat.
Proof.
  induction s as [|a s IH]; simpl; [done|].
  rewrite length_append. pose proof (escapeEach_length s) as Hl.
  destruct (special a) eqn:Ha; simpl.
  - intros _. pose proof (escapeChar_special_length a Ha). lia.
  - intros Hs. specialize (IH Hs). pose proof (escapeChar_length a). lia.
Qed.

(** X2: the encoder returns a text unchanged exactly when the text has none
    of the six characters it replaces; any other text gets longer. *)
Theorem encodeSvgText_unchanged (str : string) :
  (encodeSvgText str = str <-> hasSpecial str = false)
  /\ (hasSpecial str = true ->
      (String.length str < String.length (encodeSvgText str))%nat).
Proof.
  rewrite encodeSvgText_escapeEach. split; [split|].
  - intros E. destruct (hasSpecial str) eqn:H; [|done].
    apply escapeEach_special_longer in H. rewrite E in H. lia.
  - apply escapeEach_plain.
  - apply escapeEach_special_longer.
Qed.

(** The escape of a character, followed by any text, determines the
    character and the text. *)
Lemma escapeChar_prefix_inj a b t1 t2 :
  escapeChar a +:+ t1 = escapeChar b +:+ t2 -> a = b /\ t1 = t2.
Proof.
  unfold escapeChar.
  destruct (Ascii.eqb_spec a "&") as [->|Ha1];
    [|destruct (Ascii.eqb_spec a "%") as [->|Ha2];
      [|destruct (Ascii.eqb_spec a "#") as [->|Ha3];
        [|destruct (Ascii.eqb_spec a " ") as [->|Ha4];
          [|destruct (Ascii.eqb_spec a "<") as [->|Ha5];
            [|destruct (Ascii.eqb_spec a ">") as [->|Ha6]]]]]];
  (destruct (Ascii.eqb_spec b "&") as [->|Hb1];
    [|destruct (Ascii.eqb_spec b "%") as [->|Hb2];
      [|destruct (Ascii.eqb_spec b "#") as [->|Hb3];
        [|destruct (Ascii.eqb_spec b " ") as [->|Hb4];
          [|destruct (Ascii.eqb_spec b "<") as [->|Hb5];
            [|destruct (Ascii.eqb_spec b ">") as [->|Hb6]]]]]]);
  cbv [String.append charStr]; intros E;
  first [ discriminate E
        | injection E as E; subst; first [done | congruence] ].
Qed.

Lemma escapeEach_inj s1 : forall s2, escapeEach s1 = escapeEach s2 -> s1 = s2.
Proof.
  induction s1 as [|a s1 IH]; intros [|b s2]; simpl; intros E.
  - done.
  - pose proof (escapeChar_length b) as Hb.
    apply (f_equal String.length) in E. rewrite length_append in E.
    simpl in E. lia.
  - pose proof (escapeChar_length a) as Ha.
    apply (f_equal String.length) in E. rewrite length_append in E.
    simpl in E. lia.
  - apply escapeChar_prefix_inj in E as [-> E]. by rewrite (IH s2 E).
Qed.

(** X3: the encoder loses nothing: two different texts have different
    encodings. *)
Theorem encodeSvgText_injective (s1 s2 : string) :
  s1 <> s2 -> encodeSvgText s1 <> encodeSvgText s2.
Proof.
  intros Hne E. apply Hne. rewrite !encodeSvgText_escapeEach in E.
  by apply escapeEach_inj.
Qed.

(** ** Line probing *)

Lemma totalLength_app (l1 l2 : list string) :
  totalLength (l1 ++ l2) = (totalLength l1 + totalLength l2)%nat.
Proof.
  unfold totalLength. induction l1 as [|a l1 IH]; simpl; [done|].
  rewrite IH. lia.
Qed.

Lemma totalLength_insert (lines : list string) k line char :
  lines !! k = Some line ->
  totalLength (<[k := line +:+ charStr char]> lines) = S (totalLength lines).
Proof.
  revert k. induction lines as [|a lines IH]; intros [|k] H; simpl in *; try done.
  - injection H as ->. rewrite length_append. simpl. lia.
  - rewrite (IH k H). lia.
Qed.

(** One round of the loop adds one character and keeps the buffers
    non-empty, whatever the line index. *)
Lemma addChar_invariant (lines : list string) lineIndex char :
  Forall (fun line => nonEmpty line = true) lines ->
  Forall (fun line => nonEmpty line = true) (addChar lines lineIndex char)
  /\ totalLength (addChar lines lineIndex char) = S (totalLength lines).
Proof.
  intros Hne. unfold addChar.
  assert (Forall (fun line => nonEmpty line = true) (lines ++ [charStr char])
          /\ totalLength (lines ++ [charStr char]) = S (totalLength lines)) as Hpush.
  { split.
    - apply Forall_app. split; [done|]. by repeat constructor.
    - rewrite totalLength_app. simpl. lia. }
  destruct (lineAt lines lineIndex) as [line|] eqn:Hat; [|done].
  destruct (nonEmpty line) eqn:Hline; [|done].
  unfold lineAt in Hat. case_bool_decide; [|done]. split.
  - apply Forall_insert; [done|]. by destruct line.
  - by apply totalLength_insert.
Qed.

Lemma probeLoop_invariant (textNode : Text) rest : forall i lines,
  Forall (fun line => nonEmpty line = true) lines ->
  Forall (fun line => nonEmpty line = true) (probeLoop textNode rest i lines)
  /\ totalLength (probeLoop textNode rest i lines)
     = (totalLength lines + String.length rest)%nat.
Proof.
  induction rest as [|char rest IH]; intros i lines Hne; simpl.
  - split; [done|lia].
  - destruct (addChar_invariant lines (lineIndexAt textNode i) char Hne)
      as [Hne' Hlen].
    destruct (IH (S i) _ Hne') as [Hne'' Hlen'']. split; [done|].
    rewrite Hlen'', Hlen. lia.
Qed.

Lemma imap_line_texts (rects : list Rect.t) (lines : list string) :
  map Line.text
      (imap (fun index line =>
               {| Line.rect := rects !! index; Line.text := line |}) lines)
  = lines.
Proof.
  apply list_eq. intros j. rewrite list_lookup_fmap, list_lookup_imap.
  by destruct (lines !! j).
Qed.

Lemma joinLines_app (l1 l2 : list string) :
  joinLines (l1 ++ l2) = joinLines l1 +:+ joinLines l2.
Proof.
  induction l1 as [|a l1 IH]; simpl; [done|]. by rewrite IH, append_assoc.
Qed.

Lemma list_ascii_of_string_app (a b : string) :
  list_ascii_of_string (a +:+ b)
  = (list_ascii_of_string a ++ list_ascii_of_string b)%list.
Proof.
  induction a as [|c a IH]; [done|]. rewrite append_cons. simpl. by rewrite IH.
Qed.

(** One round of the loop adds the character to the characters of the
    buffers and to nothing else. *)
Lemma addChar_characters (lines : list string) lineIndex char :
  Permutation
    (list_ascii_of_string (joinLines (addChar lines lineIndex char)))
    (list_ascii_of_string (joinLines lines) ++ [char]).
Proof.
  unfold addChar.
  assert (list_ascii_of_string (joinLines (lines ++ [charStr char]))
          = (list_ascii_of_string (joinLines lines) ++ [char])%list) as Hpush.
  { by rewrite joinLines_app, list_ascii_of_string_app. }
  destruct (lineAt lines lineIndex) as [line|] eqn:Hat; [|by rewrite Hpush].
  destruct (nonEmpty line); [|by rewrite Hpush].
  unfold lineAt in Hat. case_bool_decide; [|done].
  pose proof (lookup_lt_Some _ _ _ Hat) as Hlt.
  rewrite insert_take_drop by done.
  rewrite <- (take_drop_middle lines _ line Hat) at 3.
  rewrite !joinLines_app. simpl.
  rewrite !list_ascii_of_string_app. simpl.
  rewrite <- !app_assoc. do 2 apply Permutation_app_head.
  apply Permutation_app_comm.
Qed.

Lemma probeLoop_characters (textNode : Text) rest : forall i lines,
  Permutation
    (list_ascii_of_string (joinLines (probeLoop textNode rest i lines)))
    (list_ascii_of_string (joinLines lines) ++ list_ascii_of_string rest).
Proof.
  induction rest as [|char rest IH]; intros i lines; simpl.
  - by rewrite app_nil_r.
  - rewrite IH, addChar_characters. by rewrite <- app_assoc.
Qed.

(** One round of the loop puts the character at the end of a buffer: each
    buffer stays a subsequence of the text read so far. *)
Lemma addChar_subsequence (lines : list string) lineIndex char (read : list ascii) :
  Forall (fun line => sublist (list_ascii_of_string line) read) lines ->
  Forall (fun line => sublist (list_ascii_of_string line) (read ++ [char])%list)
         (addChar lines lineIndex char).
Proof.
  intros Hsub.
  assert (Forall (fun line => sublist (list_ascii_of_string line) (read ++ [char])%list)
                 lines) as Hold.
  { eapply list.Forall_impl; [exact Hsub|]. intros line Hline.
    by apply sublist_inserts_r. }
  assert (Forall (fun line => sublist (list_ascii_of_string line) (read ++ [char])%list)
                 (lines ++ [charStr char])) as Hpush.
  { apply Forall_app. split; [done|]. constructor; [|constructor].
    simpl. by apply sublist_inserts_l. }
  unfold addChar.
  destruct (lineAt lines lineIndex) as [line|] eqn:Hat; [|done].
  destruct (nonEmpty line); [|done].
  unfold lineAt in Hat. case_bool_decide; [|done].
  apply Forall_insert; [done|].
  rewrite list_ascii_of_string_app. simpl.
  apply sublist_app; [|done].
  exact (proj1 (Forall_lookup _ lines) Hsub _ _ Hat).
Qed.

Lemma probeLoop_subsequence (textNode : Text) rest : forall i lines read,
  Forall (fun line => sublist (list_ascii_of_string line) read) lines ->
  Forall (fun line =>
            sublist (list_ascii_of_string line)
                    (read ++ list_ascii_of_string rest)%list)
         (probeLoop textNode rest i lines).
Proof.
  induction rest as [|char rest IH]; intros i lines read Hsub; simpl.
  - by rewrite app_nil_r.
  - change (char :: list_ascii_of_string rest)
      with ([char] ++ list_ascii_of_string rest)%list.
    rewrite app_assoc. apply IH. by apply addChar_subsequence.
Qed.

(** X4: whatever the rectangle query answers, the lines of a text node hold
    each character of the text exactly once: the characters of all lines
    together are those of the text, counted with their repetitions; each
    line holds its characters in the order of the text; no line is empty;
    the lengths of the lines add up to the length of the text, so there are
    at most as many lines as characters. *)
Theorem getTextNodeLines_keeps_characters (textNode : Text) :
  Forall (fun l => nonEmpty (Line.text l) = true) (getTextNodeLines textNode)
  /\ totalLength (map Line.text (getTextNodeLines textNode))
     = String.length (nodeValue textNode)
  /\ (length (getTextNodeLines textNode) <= String.length (nodeValue textNode))%nat
  /\ Permutation
       (list_ascii_of_string
          (joinLines (map Line.text (getTextNodeLines textNode))))
       (list_ascii_of_string (nodeValue textNode))
  /\ Forall (fun l => sublist (list_ascii_of_string (Line.text l))
                              (list_ascii_of_string (nodeValue textNode)))
            (getTextNodeLines textNode).
Proof.
  rewrite getTextNodeLines_imap.
  destruct (probeLoop_invariant textNode (nodeValue textNode) 0 [] (Forall_nil_2 _))
    as [Hne Hlen].
  assert (forall lines : list string,
            Forall (fun line => nonEmpty line = true) lines ->
            (length lines <= totalLength lines)%nat) as Hcount.
  { induction 1 as [|line lines Hl _ IH]; simpl; [done|].
    destruct line; [done|]. simpl. lia. }
  split; [|split; [|split; [|split]]].
  - apply (proj1 (Forall_map Line.text (fun line => nonEmpty line = true) _)).
    rewrite imap_line_texts. done.
  - rewrite imap_line_texts. exact Hlen.
  - rewrite length_imap. specialize (Hcount _ Hne). simpl in Hlen. lia.
  - rewrite imap_line_texts.
    exact (probeLoop_characters textNode (nodeValue textNode) 0 []).
  - apply (proj1 (Forall_map Line.text
                    (fun line => sublist (list_ascii_of_string line)
                                         (list_ascii_of_string (nodeValue textNode)))
                    _)).
    rewrite imap_line_texts.
    exact (probeLoop_subsequence textNode (nodeValue textNode) 0 [] []
             (Forall_nil_2 _)).
Qed.

Lemma inReadingOrder_regular (textNode : Text) rest : forall i m,
  inReadingOrder textNode rest i m -> regular textNode rest i m.
Proof.
  induction rest as [|char rest IH]; intros i m; simpl; [done|].
  intros (Hlo & Hn & Hrest). split; [lia|].
  replace (Nat.max m (length (getClientRects textNode (S i))))
    with (length (getClientRects textNode (S i))) by lia.
  by apply IH.
Qed.

(** In reading order the number of buffers is the last rectangle count. *)
Lemma inReadingOrder_lineCount (textNode : Text) rest : forall i m,
  inReadingOrder textNode rest i m ->
  lineCount textNode rest i m =
    if nonEmpty rest
    then length (getClientRects textNode (i + String.length rest))
    else m.
Proof.
  induction rest as [|char rest IH]; intros i m; simpl; [done|].
  intros (Hlo & Hn & Hrest).
  replace (Nat.max m (length (getClientRects textNode (S i))))
    with (length (getClientRects textNode (S i))) by lia.
  rewrite (IH _ _ Hrest). destruct rest as [|c rest']; simpl.
  - do 2 f_equal. lia.
  - do 2 f_equal. lia.
Qed.

(** In reading order every character joins the end of what was read. *)
Lemma probeLoop_inReadingOrder (textNode : Text) rest : forall i lines,
  Forall (fun line => nonEmpty line = true) lines ->
  inReadingOrder textNode rest i (length lines) ->
  joinLines (probeLoop textNode rest i lines) = joinLines lines +:+ rest.
Proof.
  induction rest as [|char rest IH]; intros i lines Hne; simpl.
  - intros _. by rewrite append_empty_r.
  - intros (Hlo & Hn & Hrest). rewrite lineIndexAt_nat.
    destruct (addChar_invariant lines
                (Z.of_nat (length (getClientRects textNode (S i))) - 1) char Hne)
      as [Hne' _].
    assert (joinLines (addChar lines
              (Z.of_nat (length (getClientRects textNode (S i))) - 1) char)
            = joinLines lines +:+ charStr char
            /\ length (addChar lines
                 (Z.of_nat (length (getClientRects textNode (S i))) - 1) char)
               = length (getClientRects textNode (S i))) as [Hjoin Hlen].
    { destruct Hn as [Hn|Hn]; rewrite Hn in *.
      - destruct (length lines) as [|k] eqn:Hk; [lia|].
        destruct (lookup_lt_is_Some_2 lines k) as [line Hline]; [lia|].
        assert (nonEmpty line = true) as Hline_ne.
        { by eapply (proj1 (Forall_lookup _ lines) Hne). }
        rewrite (addChar_existing lines k line char Hline Hline_ne).
        rewrite length_insert. split; [|done].
        rewrite <- (take_drop_middle lines k line Hline) at 2.
        rewrite insert_take_drop by lia.
        rewrite (drop_ge lines (S k)) by lia.
        rewrite !joinLines_app. simpl. by rewrite !append_empty_r, append_assoc.
      - rewrite addChar_new. rewrite length_app, joinLines_app. simpl.
        rewrite append_empty_r. split; [done|lia]. }
    rewrite IH; [|done|by rewrite Hlen].
    rewrite Hjoin, append_assoc. done.
Qed.

(** In reading order a non-empty run has one line per rectangle of the
    whole run. *)
Lemma getTextNodeLines_rects (textNode : Text) :
  inReadingOrder textNode (nodeValue textNode) 0 0 ->
  nodeValue textNode <> EmptyString ->
  map Line.rect (getTextNodeLines textNode)
  = map Some (getClientRects textNode (String.length (nodeValue textNode))).
Proof.
  intros Hord Htext. rewrite getTextNodeLines_imap.
  pose proof (probeLoop_start textNode (inReadingOrder_regular _ _ _ _ Hord))
    as Hlines.
  rewrite (inReadingOrder_lineCount _ _ _ _ Hord) in Hlines.
  destruct (nodeValue textNode) as [|c rest] eqn:E; [done|].
  simpl nonEmpty in Hlines. cbv iota in Hlines. rewrite Nat.add_0_l in Hlines.
  apply list_eq. intros j. rewrite !list_lookup_fmap, list_lookup_imap.
  rewrite Hlines, list_lookup_fmap.
  destruct (decide (j < length (getClientRects textNode
                                  (String.length (String c rest))))%nat) as [Hj|Hj].
  - rewrite lookup_seq_lt by done.
    destruct (lookup_lt_is_Some_2 _ j Hj) as [r Hr]. by rewrite Hr.
  - rewrite lookup_seq_ge by lia.
    by rewrite (proj2 (lookup_ge_None _ j)) by lia.
Qed.

(** X5: when the rectangle counts follow the reading order (they start at
    one, never decrease and grow by one at a time), the lines are the
    consecutive pieces of the run: joined in order they give back the text,
    and for a non-empty run there is exactly one line per rectangle of the
    whole run, each with its rectangle. *)
Theorem getTextNodeLines_reading_order (textNode : Text) :
  inReadingOrder textNode (nodeValue textNode) 0 0 ->
  joinLines (map Line.text (getTextNodeLines textNode)) = nodeValue textNode
  /\ (nodeValue textNode <> EmptyString ->
      map Line.rect (getTextNodeLines textNode)
      = map Some (getClientRects textNode (String.length (nodeValue textNode)))).
Proof.
  intros Hord. split.
  - rewrite getTextNodeLines_imap, imap_line_texts.
    by rewrite (probeLoop_inReadingOrder textNode _ 0 [] (Forall_nil_2 _) Hord).
  - by apply getTextNodeLines_rects.
Qed.

(** ** Shapes of a text node *)

Lemma notBlank_nonEmpty text : notBlank text = true -> nonEmpty text = true.
Proof. by destruct text. Qed.

Lemma mapM_outcome_first_throw {A B : Type} (f : A -> outcome B) (l : list A) e :
  (forall a e', a ∈ l -> f a = Throw e' -> e' = e) ->
  (exists a, a ∈ l /\ f a = Throw e) ->
  mapM_outcome f l = Throw e.
Proof.
  induction l as [|a l IH]; intros Hall (b & Hin & Hb).
  - by apply elem_of_nil in Hin.
  - simpl. destruct (f a) as [x|e'] eqn:Ha; simpl.
    + rewrite IH; [done| |].
      * intros a' e'' Hin'. apply Hall. by constructor.
      * apply elem_of_cons in Hin as [->|Hin]; [congruence|eauto].
    + f_equal. apply (Hall a); [constructor|done].
Qed.

Lemma getTextShapes_lines (textNode : Text) computedStyle :
  parentNode textNode = Some computedStyle ->
  notBlank (nodeValue textNode) = true ->
  getTextShapes textNode =
    mapM_outcome
      (fun l => toShape_call (Line.rect l) computedStyle (Line.text l))
      (filter (fun l => notBlank (Line.text l) = true) (getTextNodeLines textNode)).
Proof.
  intros Hparent Htext. unfold getTextShapes.
  rewrite (notBlank_nonEmpty _ Htext), Hparent. simpl.
  unfold notBlank in Htext. apply Nat.ltb_lt in Htext.
  destruct (String.length (trim (nodeValue textNode))) eqn:E; [lia|]. done.
Qed.

Lemma shapesOfLines_cons computedStyle l (lines : list Line.t) :
  shapesOfLines computedStyle (l :: lines) =
    match (if notBlank (Line.text l)
           then (fun r => toShape r computedStyle (Line.text l)) <$> Line.rect l
           else None) with
    | Some shape => shape :: shapesOfLines computedStyle lines
    | None => shapesOfLines computedStyle lines
    end.
Proof. reflexivity. Qed.

Lemma mapM_toShape_ok computedStyle (lines : list Line.t) :
  (forall l, l ∈ lines -> notBlank (Line.text l) = true -> is_Some (Line.rect l)) ->
  mapM_outcome
    (fun l => toShape_call (Line.rect l) computedStyle (Line.text l))
    (filter (fun l => notBlank (Line.text l) = true) lines)
  = Ok (shapesOfLines computedStyle lines).
Proof.
  induction lines as [|l lines IH]; intros H; [done|].
  rewrite filter_cons, shapesOfLines_cons.
  assert (forall l', l' ∈ lines -> notBlank (Line.text l') = true ->
                     is_Some (Line.rect l')) as H'.
  { intros l' Hin. apply H. by constructor. }
  destruct (decide (notBlank (Line.text l) = true)) as [Hl|Hl].
  - rewrite Hl. destruct (H l) as [r Hr]; [constructor|done|].
    simpl. rewrite Hr. simpl. by rewrite (IH H').
  - apply not_true_is_false in Hl. rewrite Hl. by apply IH.
Qed.

(** X6: a text node without parent, or whose characters are all white
    space, yields no shape and no error, whatever the rectangle query
    answers. *)
Theorem getTextShapes_blank (textNode : Text) :
  (parentNode textNode = None -> getTextShapes textNode = Ok [])
  /\ (forallb isWhiteSpace (list_ascii_of_string (nodeValue textNode)) = true ->
      getTextShapes textNode = Ok []).
Proof.
  unfold getTextShapes. split.
  - intros ->. by destruct (negb _).
  - intros Hblank. destruct (negb _); [done|].
    destruct (parentNode textNode); [|done].
    unfold trim. by rewrite (trimStart_blank _ Hblank).
Qed.

(** X7: for a text node with a parent and a text that is not blank, the
    shapes are those of the lines that are not blank, in order, each with
    the rectangle of its line and the filtered style of the parent, when
    every such line has a rectangle; when one of them has none, the outcome
    is a [TypeError]. *)
Theorem getTextShapes_outcome (textNode : Text) computedStyle :
  parentNode textNode = Some computedStyle ->
  notBlank (nodeValue textNode) = true ->
  ((forall l, l ∈ getTextNodeLines textNode ->
              notBlank (Line.text l) = true -> is_Some (Line.rect l)) ->
   getTextShapes textNode
   = Ok (shapesOfLines computedStyle (getTextNodeLines textNode)))
  /\ ((exists l, l ∈ getTextNodeLines textNode
                 /\ notBlank (Line.text l) = true /\ Line.rect l = None) ->
      getTextShapes textNode = Throw TypeError).
Proof.
  intros Hparent Htext. rewrite (getTextShapes_lines _ _ Hparent Htext). split.
  - apply mapM_toShape_ok.
  - intros (l & Hin & Hl & Hrect). apply mapM_outcome_first_throw.
    + intros a e' _. unfold toShape_call. destruct (Line.rect a); by intros [= <-].
    + exists l. split; [by apply list_elem_of_filter|].
      unfold toShape_call. by rewrite Hrect.
Qed.

(** X8: when the rectangle counts of a text node follow the reading order,
    its shapes are extracted without error: one shape for each line that is
    not blank, with the rectangle of the line. *)
Theorem getTextShapes_reading_order (textNode : Text) computedStyle :
  parentNode textNode = Some computedStyle ->
  notBlank (nodeValue textNode) = true ->
  inReadingOrder textNode (nodeValue textNode) 0 0 ->
  getTextShapes textNode
  = Ok (shapesOfLines computedStyle (getTextNodeLines textNode))
  /\ length (shapesOfLines computedStyle (getTextNodeLines textNode))
     = length (filter (fun l => notBlank (Line.text l) = true)
                      (getTextNodeLines textNode)).
Proof.
  intros Hparent Htext Hord.
  assert (forall l, l ∈ getTextNodeLines textNode -> is_Some (Line.rect l)) as Hrects.
  { intros l Hin.
    assert (nodeValue textNode <> EmptyString) as Hne.
    { intros E. by rewrite E in Htext. }
    pose proof (getTextNodeLines_rects textNode Hord Hne) as Hmap.
    apply (list_elem_of_fmap_2 Line.rect) in Hin.
    change (Line.rect l ∈ map Line.rect (getTextNodeLines textNode)) in Hin.
    rewrite Hmap in Hin. apply list_elem_of_fmap in Hin as (r & -> & _). eauto. }
  rewrite (getTextShapes_lines _ _ Hparent Htext).
  rewrite mapM_toShape_ok by (intros; by apply Hrects). split; [done|].
  clear -Hrects. induction (getTextNodeLines textNode) as [|l lines IH]; [done|].
  rewrite filter_cons, shapesOfLines_cons.
  destruct (Hrects l) as [r Hr]; [constructor|].
  assert (forall l', l' ∈ lines -> is_Some (Line.rect l')) as H'.
  { intros l' Hin. apply Hrects. by constructor. }
  destruct (decide (notBlank (Line.text l) = true)) as [Hl|Hl].
  - rewrite Hl, Hr. simpl. by rewrite IH.
  - apply not_true_is_false in Hl. rewrite Hl. by apply IH.
Qed.

(** ** The traversal *)

Lemma mapM_outcome_app {A B : Type} (f : A -> outcome B) (l1 l2 : list A) :
  mapM_outcome f (l1 ++ l2) =
    (xs ← mapM_outcome f l1; ys ← mapM_outcome f l2; Ok (xs ++ ys)%list).
Proof.
  induction l1 as [|a l1 IH]; simpl.
  - by destruct (mapM_outcome f l2).
  - destruct (f a) as [b|e]; simpl; [|done]. rewrite IH.
    destruct (mapM_outcome f l1) as [xs|e]; simpl; [|done].
    by destruct (mapM_outcome f l2).
Qed.

Lemma mapM_outcome_ok_inv {A B : Type} (f : A -> outcome B) (l : list A) bs :
  mapM_outcome f l = Ok bs -> Forall2 (fun a b => f a = Ok b) l bs.
Proof.
  revert bs. induction l as [|a l IH]; simpl; intros bs.
  - intros [= <-]. constructor.
  - destruct (f a) as [b|e] eqn:Ha; simpl; [|done].
    destruct (mapM_outcome f l) as [bs'|e]; simpl; [|done].
    intros [= <-]. constructor; [done|by apply IH].
Qed.

(** The traversal visits the text nodes in document order. *)
Lemma getShapes_flat : forall (element : Node) (offset : Rect.t),
  getShapes element offset =
    (shapes ← mapM_outcome getTextShapes (textNodesOf element);
     Ok (map (offsetShape offset) (concat shapes))).
Proof.
  fix IH 1. intros [rect children|t|k] offset; simpl.
  - induction children as [|node children IHc]; simpl; [done|].
    rewrite (IH node offset), mapM_outcome_app.
    destruct (mapM_outcome getTextShapes (textNodesOf node)) as [xs|e]; simpl;
      [|done].
    revert IHc.
    destruct ((fix ofChildren (nodes : list Node) : outcome (list Shape.t) :=
                 match nodes with
                 | [] => Ok []
                 | node :: nodes' =>
                     a ← getShapes node offset;
                     b ← ofChildren nodes';
                     Ok (a ++ b)%list
                 end) children) as [b|e]; simpl;
      destruct (mapM_outcome getTextShapes
                  ((fix ofNodes (nodes : list Node) : list Text :=
                      match nodes with
                      | [] => []
                      | node :: nodes' => (textNodesOf node ++ ofNodes nodes')%list
                      end) children)) as [ys|e']; simpl; try done;
      intros [= ->]; by rewrite ?concat_app, ?map_app.
  - destruct (getTextShapes t) as [shapes|e]; simpl; [|done].
    by rewrite !app_nil_r.
  - done.
Qed.

(** X9: the shapes of a tree are the shapes of its text nodes in document
    order, moved by the offset; the traversal fails exactly when the shapes
    of one of its text nodes fail, with the error of the first such node. *)
Theorem getShapes_document_order (element : Node) (offset : Rect.t) :
  getShapes element offset =
    (shapes ← mapM_outcome getTextShapes (textNodesOf element);
     Ok (map (offsetShape offset) (concat shapes))).
Proof. apply getShapes_flat. Qed.

Lemma mapM_toShape_collected computedStyle (lines : list Line.t) shapes :
  Forall (fun l => notBlank (Line.text l) = true) lines ->
  mapM_outcome
    (fun l => toShape_call (Line.rect l) computedStyle (Line.text l)) lines
  = Ok shapes ->
  Forall collectedShape shapes.
Proof.
  revert shapes. induction lines as [|l lines IH]; intros shapes Hall; simpl.
  - intros [= <-]. constructor.
  - apply list.Forall_cons in Hall as [Hl Hall].
    unfold toShape_call at 1. destruct (Line.rect l) as [r|]; simpl; [|done].
    destruct (mapM_outcome _ lines) as [bs|e] eqn:E; simpl; [|done].
    intros [= <-]. constructor; [|by apply IH].
    split; [done|]. by exists computedStyle.
Qed.

Lemma getTextShapes_collected (textNode : Text) shapes :
  getTextShapes textNode = Ok shapes -> Forall collectedShape shapes.
Proof.
  unfold getTextShapes.
  destruct (negb _); [intros [= <-]; constructor|].
  destruct (parentNode textNode) as [computedStyle|]; [|intros [= <-]; constructor].
  destruct (_ =? _)%nat; [intros [= <-]; constructor|].
  apply mapM_toShape_collected.
  apply Forall_forall. intros l Hin. apply list_elem_of_In in Hin.
  by apply list_elem_of_filter in Hin as [Hl _].
Qed.

Lemma mapM_getTextShapes_collected (texts : list Text) shapes :
  mapM_outcome getTextShapes texts = Ok shapes ->
  Forall collectedShape (concat shapes).
Proof.
  revert shapes. induction texts as [|t texts IH]; intros shapes; simpl.
  - intros [= <-]. constructor.
  - destruct (getTextShapes t) as [a|e] eqn:Ht; simpl; [|done].
    destruct (mapM_outcome getTextShapes texts) as [bs|e]; simpl; [|done].
    intros [= <-]. simpl. apply Forall_app. split.
    + by apply (getTextShapes_collected t).
    + by apply IH.
Qed.

Lemma getShapes_collected (element : Node) offset shapes :
  getShapes element offset = Ok shapes -> Forall collectedShape shapes.
Proof.
  rewrite getShapes_flat.
  destruct (mapM_outcome getTextShapes (textNodesOf element)) as [ss|e] eqn:E;
    simpl; [|done].
  intros [= <-]. apply Forall_map. apply Forall_forall. intros s Hin.
  by pose proof (proj1 (Forall_forall _ _)
                   (mapM_getTextShapes_collected _ _ E) s Hin) as [Ht Hs].
Qed.

(** X10: every shape that the traversal collects has a text that is not
    blank, hence not empty, and carries the filtered styles of a computed
    style: blank lines never become shapes. *)
Theorem getShapes_shapes_not_blank (element : Node) offset shapes :
  getShapes element offset = Ok shapes ->
  Forall (fun shape => notBlank (Shape.text shape) = true
                       /\ nonEmpty (Shape.text shape) = true
                       /\ exists computedStyle,
                            Shape.styles shape = relevantStyles computedStyle)
         shapes.
Proof.
  intros H. apply Forall_forall. intros s Hin.
  pose proof (proj1 (Forall_forall _ _)
                (getShapes_collected element offset shapes H) s Hin) as [Ht Hs].
  split; [done|]. split; [by apply notBlank_nonEmpty|done].
Qed.

Lemma mapM_outcome_throw_iff (texts : list Text) :
  (exists t, t ∈ texts /\ getTextShapes t = Throw TypeError)
  <-> mapM_outcome getTextShapes texts = Throw TypeError.
Proof.
  split.
  - intros H. apply mapM_outcome_first_throw; [|done].
    intros t e _ Ht. by apply (getTextShapes_throws t).
  - intros (t & Hin & Ht)%mapM_outcome_throw_inv. eauto.
Qed.

(** X11: the traversal can fail with a [TypeError] only, and it does so
    exactly when the shapes of one of the text nodes of the tree do. *)
Theorem getShapes_failure (element : Node) (offset : Rect.t) :
  (forall e, getShapes element offset = Throw e -> e = TypeError)
  /\ (getShapes element offset = Throw TypeError <->
      exists t, t ∈ textNodesOf element /\ getTextShapes t = Throw TypeError).
Proof.
  split; [intros e; apply getShapes_throws|].
  rewrite getShapes_flat, mapM_outcome_throw_iff.
  destruct (mapM_outcome getTextShapes (textNodesOf element)); simpl; split;
    congruence.
Qed.

(** ** Styles of a shape *)

(** X12: the styles of a shape name each property at most once, and there
    are at most seven of them. *)
Theorem toShape_styles_unique (rect : Rect.t) (style : CSSStyleDeclaration)
  (text : string) :
  NoDup (Shape.styles (toShape rect style text)).*1
  /\ (length (Shape.styles (toShape rect style text)) <= 7)%nat.
Proof.
  pose proof (styles_omap_sublist style RelevantShapeStyles) as Hsub.
  split.
  - eapply sublist_NoDup; [apply RelevantShapeStyles_NoDup|exact Hsub].
  - apply sublist_length in Hsub. rewrite !length_fmap in Hsub. exact Hsub.
Qed.

(** ** Classes and rules *)

Lemma decimal_inj i j : decimal i = decimal j -> i = j.
Proof.
  unfold decimal. intros E.
  assert (forall n, Nat.to_uint n <> Decimal.Nil) as Hnil.
  { intros n. rewrite <- (Unsigned.of_to n) at 1. rewrite Unsigned.to_of.
    unfold Decimal.unorm. by destruct (Decimal.nzhead _). }
  apply (f_equal NilZero.uint_of_string) in E.
  rewrite !NilZero.usu in E by apply Hnil.
  injection E as E. by apply Unsigned.to_uint_inj.
Qed.

Lemma className_inj i j : className i = className j -> i = j.
Proof. unfold className. intros [= E]. by apply decimal_inj. Qed.

Lemma rulesFrom_app i (k1 k2 : list string) :
  rulesFrom i (k1 ++ k2) = (rulesFrom i k1 ++ rulesFrom (i + length k1) k2)%list.
Proof.
  revert i. induction k1 as [|st k1 IH]; intros i; simpl.
  - by rewrite Nat.add_0_r.
  - rewrite IH. by rewrite Nat.add_succ_r.
Qed.

Lemma rulesFrom_keys i (keys : list string) : (rulesFrom i keys).*1 = keys.
Proof. revert i. induction keys as [|st keys IH]; intros i; simpl; [done|]. by rewrite IH. Qed.

Lemma rulesFrom_names i (keys : list string) :
  (rulesFrom i keys).*2 = map className (seq i (length keys)).
Proof. revert i. induction keys as [|st keys IH]; intros i; simpl; [done|]. by rewrite IH. Qed.

Lemma rulesFrom_length i (keys : list string) : length (rulesFrom i keys) = length keys.
Proof. revert i. induction keys as [|st keys IH]; intros i; simpl; [done|]. by rewrite IH. Qed.

(** A style text that is not among the keys has no rule. *)
Lemma selectors_get_absent i (keys : list string) style :
  style ∉ keys -> selectors_get (rulesFrom i keys) style = None.
Proof.
  revert i. induction keys as [|st keys IH]; intros i Hnot; [done|].
  unfold selectors_get. simpl.
  destruct (String.eqb_spec st style) as [->|Hne].
  - exfalso. apply Hnot. constructor.
  - apply IH. intros Hin. apply Hnot. by constructor.
Qed.

(** A style text among the keys has the rule of its first position. *)
Lemma selectors_get_index i (keys : list string) style :
  style ∈ keys ->
  exists j, keys !! j = Some style
            /\ selectors_get (rulesFrom i keys) style = Some (className (i + j)).
Proof.
  revert i. induction keys as [|st keys IH]; intros i Hin.
  - by apply elem_of_nil in Hin.
  - unfold selectors_get. simpl.
    destruct (String.eqb_spec st style) as [->|Hne].
    + exists 0%nat. split; [done|]. simpl. by rewrite Nat.add_0_r.
    + apply elem_of_cons in Hin as [->|Hin]; [done|].
      destruct (IH (S i) Hin) as (j & Hj & Hget).
      exists (S j). split; [done|].
      unfold selectors_get in Hget. rewrite Hget. by rewrite Nat.add_succ_r.
Qed.

(** Keys that are added later do not change the rule of a key. *)
Lemma selectors_get_extend i (keys ext : list string) style :
  style ∈ keys ->
  selectors_get (rulesFrom i (keys ++ ext)) style
  = selectors_get (rulesFrom i keys) style.
Proof.
  revert i. induction keys as [|st keys IH]; intros i Hin.
  - by apply elem_of_nil in Hin.
  - unfold selectors_get. simpl.
    destruct (String.eqb_spec st style) as [->|Hne]; [done|].
    apply elem_of_cons in Hin as [->|Hin]; [done|].
    apply (IH (S i) Hin).
Qed.

Lemma selectors_has_keys i (keys : list string) style :
  selectors_has (rulesFrom i keys) style = bool_decide (style ∈ keys).
Proof.
  unfold selectors_has. destruct (decide (style ∈ keys)) as [Hin|Hin].
  - destruct (selectors_get_index i keys style Hin) as (j & _ & ->).
    rewrite !bool_decide_eq_true_2; [done..|eauto].
  - rewrite (selectors_get_absent i keys style Hin).
    rewrite !bool_decide_eq_false_2; [done..|by intros [? ?]].
Qed.

Lemma seenFrom_cons (seen : list string) style styles :
  seenFrom seen (style :: styles) =
    seenFrom (if bool_decide (style ∈ seen) then seen
              else (seen ++ [style])%list) styles.
Proof. reflexivity. Qed.

Lemma seenFrom_extends (styles seen : list string) :
  exists ext, seenFrom seen styles = (seen ++ ext)%list.
Proof.
  revert seen. unfold seenFrom.
  induction styles as [|st styles IH]; intros seen; simpl.
  - exists []. by rewrite app_nil_r.
  - case_bool_decide.
    + apply IH.
    + destruct (IH (seen ++ [st])%list) as [ext ->].
      exists (st :: ext). by rewrite <- app_assoc.
Qed.

Lemma seenFrom_NoDup (styles seen : list string) :
  NoDup seen -> NoDup (seenFrom seen styles).
Proof.
  revert seen. unfold seenFrom.
  induction styles as [|st styles IH]; intros seen Hnd; simpl; [done|].
  case_bool_decide as Hin; [by apply IH|].
  apply IH. apply list.NoDup_app. split; [done|]. split.
  - intros x Hx ->%list_elem_of_singleton. done.
  - apply list.NoDup_singleton.
Qed.

Lemma seenFrom_covers (styles seen : list string) style :
  style ∈ seenFrom seen styles <-> style ∈ seen \/ style ∈ styles.
Proof.
  revert seen. unfold seenFrom.
  induction styles as [|st styles IH]; intros seen; simpl.
  - split; [by left|]. intros [?|H]; [done|]. by apply elem_of_nil in H.
  - rewrite IH. case_bool_decide as Hin.
    + rewrite elem_of_cons. split; [intros [?|?]; auto|].
      intros [?|[->|?]]; auto.
    + rewrite elem_of_app, list_elem_of_singleton, elem_of_cons. tauto.
Qed.

(** The loop over the shapes, from any state that holds the rules of some
    keys: it adds the text elements of the drawn shapes and the rules of
    the style texts that are new. *)
Lemma collectText_from (shapes : list Shape.t) : forall textNodes keys,
  fold_left
    (fun '(textNodes, classCounter, selectors) shape =>
       if negb (nonEmpty (Shape.text shape))
       then (textNodes, classCounter, selectors)
       else
         let style := shapeStyle shape in
         let '(classCounter, selectors) :=
           if negb (selectors_has selectors style)
           then (S classCounter,
                 selectors_set selectors style ("s" +:+ decimal classCounter))
           else (classCounter, selectors) in
         ((textNodes ++
           [ {| TextElement.x := Shape.x shape;
                TextElement.y := Shape.y shape;
                TextElement.class :=
                  default "undefined" (selectors_get selectors style);
                TextElement.content := encodeSvgText (Shape.text shape) |} ])%list,
          classCounter, selectors))
    shapes (textNodes, length keys, rulesFrom 0 keys)
  = ((textNodes ++
      map (textElement
             (rulesFrom 0 (seenFrom keys (map shapeStyle (drawn shapes)))))
          (drawn shapes))%list,
     length (seenFrom keys (map shapeStyle (drawn shapes))),
     rulesFrom 0 (seenFrom keys (map shapeStyle (drawn shapes)))).
Proof.
  induction shapes as [|shape shapes IH]; intros textNodes keys.
  - simpl. by rewrite app_nil_r.
  - cbn [fold_left drawn List.filter].
    destruct (nonEmpty (Shape.text shape)) eqn:Htext; cbn [negb].
    2:{ apply IH. }
    cbv zeta. rewrite selectors_has_keys.
    fold (drawn shapes). cbn [map]. rewrite !seenFrom_cons.
    assert (forall keys0, shapeStyle shape ∈ keys0 ->
      {| TextElement.x := Shape.x shape;
         TextElement.y := Shape.y shape;
         TextElement.class :=
           default "undefined"
             (selectors_get (rulesFrom 0 keys0) (shapeStyle shape));
         TextElement.content := encodeSvgText (Shape.text shape) |}
      = textElement
          (rulesFrom 0 (seenFrom keys0 (map shapeStyle (drawn shapes)))) shape)
      as Helem.
    { intros keys0 Hin0. unfold textElement.
      destruct (seenFrom_extends (map shapeStyle (drawn shapes)) keys0)
        as [ext ->].
      by rewrite selectors_get_extend. }
    destruct (decide (shapeStyle shape ∈ keys)) as [Hin|Hin].
    + rewrite !bool_decide_eq_true_2 by done. cbn [negb].
      rewrite IH, <- app_assoc. cbn [app]. by rewrite Helem.
    + rewrite !bool_decide_eq_false_2 by done. cbn [negb].
      assert (selectors_set (rulesFrom 0 keys) (shapeStyle shape)
                ("s" +:+ decimal (length keys))
              = rulesFrom 0 (keys ++ [shapeStyle shape])) as ->.
      { unfold selectors_set. by rewrite rulesFrom_app. }
      replace (S (length keys)) with (length (keys ++ [shapeStyle shape]))
        by (rewrite length_app; simpl; lia).
      rewrite IH, <- app_assoc. cbn [app]. rewrite Helem; [done|].
      apply elem_of_app. right. constructor.
Qed.

Lemma collectText_rules (shapes : list Shape.t) :
  collectText shapes =
    (map (textElement (classRules shapes)) (drawn shapes),
     length (classRules shapes),
     classRules shapes).
Proof.
  unfold collectText, classRules.
  etransitivity; [exact (collectText_from shapes [] [])|].
  by rewrite rulesFrom_length.
Qed.

Lemma shapesToSvg_content shapes width height padding scalar :
  Svg.textNodes (shapesToSvg shapes width height padding scalar)
  = map (textElement (classRules shapes)) (drawn shapes)
  /\ Svg.styleText (shapesToSvg shapes width height padding scalar)
     = String.concat (String "010" EmptyString) (map ruleText (classRules shapes)).
Proof.
  unfold shapesToSvg. rewrite collectText_rules.
  repeat match goal with
         | |- context [let '(_, _) := ?e in _] => destruct e
         end.
  simpl. split; [done|]. f_equal. apply map_ext. by intros [style selector].
Qed.

Lemma classRules_names (shapes : list Shape.t) :
  (classRules shapes).*2 = map className (seq 0 (length (classRules shapes))).
Proof. unfold classRules. by rewrite rulesFrom_names, rulesFrom_length. Qed.

Lemma classRules_keys (shapes : list Shape.t) :
  NoDup (classRules shapes).*1
  /\ forall style, style ∈ (classRules shapes).*1 <->
                   exists shape, shape ∈ drawn shapes /\ shapeStyle shape = style.
Proof.
  unfold classRules. rewrite rulesFrom_keys. split.
  - apply seenFrom_NoDup. constructor.
  - intros style. rewrite seenFrom_covers. split.
    + intros [H|H]; [by apply elem_of_nil in H|].
      apply list_elem_of_fmap in H as (s & -> & Hs). eauto.
    + intros (s & Hs & <-). right. by apply list_elem_of_fmap_2.
Qed.

(** The class of a drawn shape is the name of the rule of its style. *)
Lemma classRules_class (shapes : list Shape.t) shape :
  shape ∈ drawn shapes ->
  exists k, (classRules shapes).*1 !! k = Some (shapeStyle shape)
            /\ TextElement.class (textElement (classRules shapes) shape)
               = className k.
Proof.
  intros Hin. unfold textElement. simpl.
  assert (shapeStyle shape ∈ seenFrom [] (map shapeStyle (drawn shapes))) as Hkey.
  { apply seenFrom_covers. right. by apply list_elem_of_fmap_2. }
  unfold classRules. rewrite rulesFrom_keys.
  destruct (selectors_get_index 0 _ _ Hkey) as (k & Hk & ->). by exists k.
Qed.

(** X13: the document has one text element for each shape with a text that
    is not empty, in the order of the shapes, at the position of the shape
    and with the encoded text of the shape; the requested size, the padding
    and the scalar change none of them. *)
Theorem shapesToSvg_text_elements shapes width height padding scalar :
  map (fun e => (TextElement.x e, TextElement.y e, TextElement.content e))
      (Svg.textNodes (shapesToSvg shapes width height padding scalar))
  = map (fun shape => (Shape.x shape, Shape.y shape,
                       encodeSvgText (Shape.text shape)))
        (drawn shapes)
  /\ length (Svg.textNodes (shapesToSvg shapes width height padding scalar))
     = length (drawn shapes).
Proof.
  destruct (shapesToSvg_content shapes width height padding scalar) as [-> _].
  split; [|by rewrite length_map]. rewrite map_map. done.
Qed.

(** X14: two drawn shapes get the same class exactly when their style texts
    are equal, and the class of a drawn shape is always the name of a rule
    of the style block. *)
Theorem shapesToSvg_classes shapes width height padding scalar i j si sj ei ej :
  drawn shapes !! i = Some si -> drawn shapes !! j = Some sj ->
  Svg.textNodes (shapesToSvg shapes width height padding scalar) !! i = Some ei ->
  Svg.textNodes (shapesToSvg shapes width height padding scalar) !! j = Some ej ->
  (TextElement.class ei = TextElement.class ej <-> shapeStyle si = shapeStyle sj)
  /\ (shapeStyle si, TextElement.class ei) ∈ classRules shapes.
Proof.
  destruct (shapesToSvg_content shapes width height padding scalar) as [-> _].
  intros Hsi Hsj. rewrite !list_lookup_fmap, Hsi, Hsj. simpl.
  intros [= <-] [= <-].
  destruct (classRules_class shapes si) as (a & Ha & ->);
    [by eapply list_elem_of_lookup_2|].
  destruct (classRules_class shapes sj) as (b & Hb & ->);
    [by eapply list_elem_of_lookup_2|].
  destruct (classRules_keys shapes) as [Hnd _]. split; [split|].
  - intros E. apply className_inj in E as ->. congruence.
  - intros E. rewrite E in Ha. f_equal. by eapply NoDup_lookup.
  - apply list_elem_of_lookup. exists a.
    pose proof (classRules_names shapes) as Hnames.
    apply list_lookup_fmap_Some in Ha as ([st nm] & Hst & Hrule).
    simpl in Hst. subst st. rewrite Hrule. do 2 f_equal.
    assert ((classRules shapes).*2 !! a = Some nm) as Hnm.
    { by rewrite list_lookup_fmap, Hrule. }
    rewrite Hnames, list_lookup_fmap in Hnm.
    rewrite lookup_seq_lt in Hnm by (by eapply lookup_lt_Some).
    by injection Hnm as <-.
Qed.

(** X15: the style block has one rule for each distinct style text of the
    drawn shapes and no other rule; the rules are named [s0], [s1], ... in
    their order, so there are at most as many rules as drawn shapes. *)
Theorem shapesToSvg_style_rules shapes width height padding scalar :
  Svg.styleText (shapesToSvg shapes width height padding scalar)
  = String.concat (String "010" EmptyString) (map ruleText (classRules shapes))
  /\ NoDup (classRules shapes).*1
  /\ (forall style, style ∈ (classRules shapes).*1 <->
                    exists shape, shape ∈ drawn shapes /\ shapeStyle shape = style)
  /\ (classRules shapes).*2 = map className (seq 0 (length (classRules shapes)))
  /\ (length (classRules shapes) <= length (drawn shapes))%nat.
Proof.
  destruct (shapesToSvg_content shapes width height padding scalar) as [_ ->].
  destruct (classRules_keys shapes) as [Hnd Hkeys].
  split; [done|]. split; [done|]. split; [done|]. split; [apply classRules_names|].
  rewrite <- (length_fmap fst (classRules shapes)).
  rewrite <- (length_fmap shapeStyle (drawn shapes)).
  apply submseteq_length, NoDup_submseteq; [done|].
  intros style (s & Hs & <-)%Hkeys. by apply list_elem_of_fmap_2.
Qed.

(** X16: what the traversal collects is drawn completely: the text
    elements of the document of the normalized shapes carry the encoded
    texts of the collected shapes, one for one and in order. *)
Theorem getShapes_all_drawn element offset shapes width height padding scalar :
  getShapes element offset = Ok shapes ->
  map TextElement.content
      (Svg.textNodes
         (shapesToSvg (normalizeShapes shapes) width height padding scalar))
  = map (fun shape => encodeSvgText (Shape.text shape)) shapes.
Proof.
  intros H.
  destruct (shapesToSvg_content (normalizeShapes shapes) width height padding scalar)
    as [-> _].
  assert (drawn (normalizeShapes shapes) = normalizeShapes shapes) as ->.
  { unfold drawn. apply forallb_filter_id. apply forallb_forall.
    intros s Hin. rewrite normalizeShapes_minFrom in Hin.
    apply in_map_iff in Hin as (s0 & <- & Hin0). simpl.
    pose proof (proj1 (Forall_forall _ _)
                  (getShapes_collected element offset shapes H) s0 Hin0) as [Ht _].
    by apply notBlank_nonEmpty. }
  rewrite map_map, normalizeShapes_minFrom, map_map. done.
Qed.

(** ** Normalization keeps the layout *)



(** ** The geometry of the projection *)







(** The projection without a requested size: no clamp applies, whatever the
    padding and the content size are. *)
Lemma shapesToSvg_natural shapes padding scalar :
  outputWidth (shapesToSvg shapes None None padding scalar)
  = Some (Size.width (getSizeFromShapes shapes) + padding * of_Z 2)%num
  /\ outputHeight (shapesToSvg shapes None None padding scalar)
     = Some (Size.height (getSizeFromShapes shapes) + padding * of_Z 2)%num
  /\ Svg.scale (shapesToSvg shapes None None padding scalar) = of_Z 1
  /\ Svg.translate (shapesToSvg shapes None None padding scalar) = padding
  /\ Svg.width (shapesToSvg shapes None None padding scalar)
     = ((Size.width (getSizeFromShapes shapes) + padding * of_Z 2) * scalar)%num
  /\ Svg.height (shapesToSvg shapes None None padding scalar)
     = ((Size.height (getSizeFromShapes shapes) + padding * of_Z 2) * scalar)%num.
Proof.
  unfold shapesToSvg, outputWidth, outputHeight.
  destruct (collectText shapes) as [[textNodes classCounter] selectors].
  simpl. repeat split.
Qed.

(** With a padding of zero and a finite content size every operation on the
    way to the [viewBox] is one of [0 * 2], [c + 0], [c * 1], [c - c],
    [0 * 0.5] and [0 + 0]. *)
Lemma shapesToSvg_natural_unpadded shapes scalar (cw ch : Qc) :
  getSizeFromShapes shapes = {| Size.width := Fin cw; Size.height := Fin ch |} ->
  Svg.viewBox (shapesToSvg shapes None None (of_Z 0) scalar)
  = (of_Z 0, of_Z 0, Some (Fin cw), Some (Fin ch))
  /\ Svg.width (shapesToSvg shapes None None (of_Z 0) scalar)
     = (Fin cw * scalar)%num
  /\ Svg.height (shapesToSvg shapes None None (of_Z 0) scalar)
     = (Fin ch * scalar)%num.
Proof.
  intros Hsize. unfold shapesToSvg. rewrite Hsize.
  destruct (collectText shapes) as [[textNodes classCounter] selectors].
  assert (isNumber None = false) as -> by reflexivity.
  cbn [Svg.viewBox Svg.width Svg.height Size.width Size.height ToNumber
       truthy_opt andb orb].
  assert (forall c : Qc, (Fin c + of_Z 0 * of_Z 2)%num = Fin c) as Hgrow.
  { intros c. unfold of_Z. cbn [add mul]. rewrite Z2Qc_inj_0. f_equal. ring. }
  assert (forall c : Qc,
            ((Fin c * of_Z 1 - Fin c) * half + of_Z 0)%num = of_Z 0) as Horigin.
  { intros c. unfold of_Z, half. cbn [add sub mul].
    rewrite Z2Qc_inj_0, Z2Qc_inj_1. f_equal. ring. }
  rewrite !Hgrow, !Horigin. done.
Qed.

(** X18: without a requested size the padding is used as it is given, the
    output box is the content box plus the padding on each side, the
    content is not scaled, and the declared size is the output box times
    the scalar; with the default padding of zero and a finite content size
    the [viewBox] is the content box at the origin. *)
Theorem shapesToSvg_natural_size shapes padding scalar :
  outputWidth (shapesToSvg shapes None None padding scalar)
  = Some (Size.width (getSizeFromShapes shapes) + padding * of_Z 2)%num
  /\ outputHeight (shapesToSvg shapes None None padding scalar)
     = Some (Size.height (getSizeFromShapes shapes) + padding * of_Z 2)%num
  /\ Svg.scale (shapesToSvg shapes None None padding scalar) = of_Z 1
  /\ Svg.translate (shapesToSvg shapes None None padding scalar) = padding
  /\ Svg.width (shapesToSvg shapes None None padding scalar)
     = ((Size.width (getSizeFromShapes shapes) + padding * of_Z 2) * scalar)%num
  /\ Svg.height (shapesToSvg shapes None None padding scalar)
     = ((Size.height (getSizeFromShapes shapes) + padding * of_Z 2) * scalar)%num
  /\ (forall cw ch : Qc,
        padding = of_Z 0 ->
        getSizeFromShapes shapes
        = {| Size.width := Fin cw; Size.height := Fin ch |} ->
        Svg.viewBox (shapesToSvg shapes None None padding scalar)
        = (of_Z 0, of_Z 0, Some (Fin cw), Some (Fin ch))
        /\ Svg.width (shapesToSvg shapes None None padding scalar)
           = (Fin cw * scalar)%num
        /\ Svg.height (shapesToSvg shapes None None padding scalar)
           = (Fin ch * scalar)%num).
Proof.
  destruct (shapesToSvg_natural shapes padding scalar)
    as (How & Hoh & Hsc & Htr & Hw & Hh).
  repeat (split; [assumption|]).
  intros cw ch -> Hsize. by apply shapesToSvg_natural_unpadded.
Qed.




(** ** The content box *)






(** ** The export *)

(** The export after the target and the format are accepted. *)
Lemma snapText_accepted browser target options element :
  targetElement browser target = Some element ->
  formatTest (formatOf options) = true ->
  snapText browser target options =
    (offset ← getBoundingClientRect element;
     collected ← getShapes element offset;
     let svg := documentOf collected options in
     if String.eqb (formatOf options) "svg" then Ok (SvgElement svg) else
     if String.eqb (formatOf options) "blob" then Ok (Blob svg) else
     image ← svgToImage browser svg;
     if String.eqb (formatOf options) "img" then Ok (HTMLImageElement image) else
     canvas ← imageToCanvas browser image;
     if String.eqb (formatOf options) "canvas" then Ok (HTMLCanvasElement canvas)
     else Ok Undefined).
Proof.
  intros Htarget Hformat. unfold snapText, formatOf in *.
  destruct target as [sel|node]; simpl in Htarget.
  - destruct (Browser.querySelector browser sel) as [[el|]|e]; try done.
    injection Htarget as ->. simpl. by rewrite Hformat.
  - destruct (nodeType node =? 1)%Z; [|done].
    injection Htarget as ->. simpl. by rewrite Hformat.
Qed.

(** The export when the target is refused. *)
Lemma snapText_refused_target browser target options :
  targetElement browser target = None ->
  exists e, snapText browser target options = Throw e
            /\ match target with
               | NodeObject _ =>
                   e = Thrown "Need to supply a querySelector or HTMLElement"
               | Selector sel =>
                   Browser.querySelector browser sel = Throw e
                   \/ (Browser.querySelector browser sel = Ok None
                       /\ e = Thrown ("No element found with selector "
                                       +:+ quoted sel))
               end.
Proof.
  intros Htarget. unfold snapText.
  destruct target as [sel|node]; simpl in Htarget.
  - destruct (Browser.querySelector browser sel) as [[el|]|e] eqn:Hq; try done.
    + eexists. split; [reflexivity|]. by right.
    + exists e. split; [reflexivity|]. by left.
  - destruct (nodeType node =? 1)%Z; [done|]. eexists. by split.
Qed.

(** The export when the format is rejected. *)
Lemma snapText_refused_format browser target element options :
  targetElement browser target = Some element ->
  formatTest (formatOf options) = false ->
  snapText browser target options
  = Throw (Thrown ("Invalid format " +:+ quoted (formatOf options))).
Proof.
  intros Htarget Hformat. unfold snapText, formatOf in *.
  destruct target as [sel|node]; simpl in Htarget.
  - destruct (Browser.querySelector browser sel) as [[el|]|e]; try done.
    simpl. by rewrite Hformat.
  - destruct (nodeType node =? 1)%Z; [|done]. simpl. by rewrite Hformat.
Qed.

(** X23: the export fails fast and in a fixed order.  A target that is no
    element, or a selector that finds nothing, is refused whatever the
    options are, also when the format is invalid; a format that the test
    rejects is refused whatever the tree below the element holds, also when
    its text cannot be measured. *)
Theorem snapText_fails_fast browser :
  (forall node options,
      nodeType node <> 1%Z ->
      snapText browser (NodeObject node) options
      = Throw (Thrown "Need to supply a querySelector or HTMLElement"))
  /\ (forall sel options,
        Browser.querySelector browser sel = Ok None ->
        snapText browser (Selector sel) options
        = Throw (Thrown ("No element found with selector " +:+ quoted sel)))
  /\ (forall target element options,
        targetElement browser target = Some element ->
        formatTest (formatOf options) = false ->
        snapText browser target options
        = Throw (Thrown ("Invalid format " +:+ quoted (formatOf options)))).
Proof.
  split; [|split].
  - intros node options Hnode. unfold snapText.
    by rewrite (proj2 (Z.eqb_neq _ _) Hnode).
  - intros sel options Hq. unfold snapText. by rewrite Hq.
  - intros target element options. apply snapText_refused_format.
Qed.

(** X24: what the export resolves to is decided by the format: an element
    for [svg], a blob for [blob], an image for [img], a canvas for
    [canvas], each made from the document of the normalized shapes of the
    element; it resolves to [undefined] only for a format that is none of
    the four. *)
Theorem snapText_result_kind browser target options artifact :
  snapText browser target options = Ok artifact ->
  exists element offset shapes,
    targetElement browser target = Some element
    /\ getBoundingClientRect element = Ok offset
    /\ getShapes element offset = Ok shapes
    /\ match artifact with
       | SvgElement svg =>
           formatOf options = "svg" /\ svg = documentOf shapes options
       | Blob svg =>
           formatOf options = "blob" /\ svg = documentOf shapes options
       | HTMLImageElement svg =>
           formatOf options = "img" /\ svg = documentOf shapes options
       | HTMLCanvasElement svg =>
           formatOf options = "canvas" /\ svg = documentOf shapes options
       | Undefined =>
           formatOf options <> "svg" /\ formatOf options <> "blob"
           /\ formatOf options <> "img" /\ formatOf options <> "canvas"
       end.
Proof.
  intros Hok.
  destruct (targetElement browser target) as [element|] eqn:Htarget.
  2:{ destruct (snapText_refused_target browser target options Htarget)
        as (e & He & _). congruence. }
  destruct (formatTest (formatOf options)) eqn:Hformat.
  2:{ by rewrite (snapText_refused_format browser target element options
                    Htarget Hformat) in Hok. }
  rewrite (snapText_accepted browser target options element Htarget Hformat) in Hok.
  destruct (getBoundingClientRect element) as [offset|e] eqn:Hrect;
    simpl in Hok; [|done].
  destruct (getShapes element offset) as [shapes|e] eqn:Hshapes;
    simpl in Hok; [|done].
  exists element, offset, shapes. split; [done|]. split; [done|]. split; [done|].
  destruct (String.eqb_spec (formatOf options) "svg") as [E1|E1];
    [by injection Hok as <-|].
  destruct (String.eqb_spec (formatOf options) "blob") as [E2|E2];
    [by injection Hok as <-|].
  unfold svgToImage in Hok.
  destruct (Browser.imageLoads browser _); simpl in Hok; [|done].
  destruct (String.eqb_spec (formatOf options) "img") as [E3|E3];
    [by injection Hok as <-|].
  unfold imageToCanvas in Hok.
  destruct (Browser.hasContext2d browser); simpl in Hok; [|done].
  destruct (String.eqb_spec (formatOf options) "canvas") as [E4|E4];
    by injection Hok as <-.
Qed.

(** X25: for the formats [svg] and [blob] the raster boundary plays no
    part: the outcome is the same in every browser with the same
    [querySelector], whether or not images decode or a canvas has a 2d
    context. *)
Theorem snapText_vector_formats browser browser' target options :
  formatOf options = "svg" \/ formatOf options = "blob" ->
  Browser.querySelector browser = Browser.querySelector browser' ->
  snapText browser target options = snapText browser' target options.
Proof.
  intros Hformat Hq.
  assert (targetElement browser target = targetElement browser' target) as Ht.
  { destruct target; simpl; [by rewrite Hq|done]. }
  assert (formatTest (formatOf options) = true) as Htest.
  { by destruct Hformat as [-> | ->]. }
  destruct (targetElement browser target) as [element|] eqn:Htarget.
  - rewrite (snapText_accepted browser target options element Htarget Htest).
    rewrite (snapText_accepted browser' target options element (eq_sym Ht) Htest).
    destruct (getBoundingClientRect element) as [offset|e]; simpl; [|done].
    destruct (getShapes element offset) as [shapes|e]; simpl; [|done].
    by destruct Hformat as [-> | ->].
  - unfold snapText. destruct target as [sel|node]; simpl in *.
    + rewrite <- Hq.
      by destruct (Browser.querySelector browser sel) as [[el|]|e].
    + by destruct (nodeType node =? 1)%Z.
Qed.

(** X26: the failures of the export for a node target are these and no
    others: the target error for a node that is no element, the format
    error for a format that the test rejects, a [TypeError] when the shapes
    of a text node of the tree fail, and, for a format other than [svg] and
    [blob], a rejection by the image or by the canvas. *)
Theorem snapText_failures browser node options e :
  snapText browser (NodeObject node) options = Throw e ->
  (nodeType node <> 1%Z
   /\ e = Thrown "Need to supply a querySelector or HTMLElement")
  \/ (formatTest (formatOf options) = false
      /\ e = Thrown ("Invalid format " +:+ quoted (formatOf options)))
  \/ (e = TypeError
      /\ exists t, t ∈ textNodesOf node /\ getTextShapes t = Throw TypeError)
  \/ (formatOf options <> "svg" /\ formatOf options <> "blob"
      /\ (e = Rejected "error" \/ e = Rejected "No drawing context")).
Proof.
  intros Hthrow.
  destruct (targetElement browser (NodeObject node)) as [element|] eqn:Htarget.
  2:{ left. simpl in Htarget.
      destruct (nodeType node =? 1)%Z eqn:Hn; [done|].
      apply Z.eqb_neq in Hn. split; [done|].
      unfold snapText in Hthrow. rewrite (proj2 (Z.eqb_neq _ _) Hn) in Hthrow.
      simpl in Hthrow. by injection Hthrow as <-. }
  right.
  assert (element = node) as ->.
  { simpl in Htarget. destruct (nodeType node =? 1)%Z; by inversion Htarget. }
  destruct (formatTest (formatOf options)) eqn:Hformat.
  2:{ left. split; [done|].
      rewrite (snapText_refused_format browser _ node options Htarget Hformat)
        in Hthrow. by injection Hthrow as <-. }
  right.
  rewrite (snapText_accepted browser _ options node Htarget Hformat) in Hthrow.
  destruct node as [rect children|t|[]]; simpl in Htarget; try done.
  cbn [getBoundingClientRect mbind outcome_bind] in Hthrow.
  destruct (getShapes (ElementNode rect children) rect) as [shapes|e'] eqn:Hshapes.
  - right. cbn [mbind outcome_bind] in Hthrow. cbv zeta in Hthrow.
    destruct (String.eqb_spec (formatOf options) "svg") as [E1|E1]; [done|].
    destruct (String.eqb_spec (formatOf options) "blob") as [E2|E2]; [done|].
    split; [done|]. split; [done|].
    unfold svgToImage in Hthrow.
    destruct (Browser.imageLoads browser _); cbn [mbind outcome_bind] in Hthrow.
    + destruct (String.eqb (formatOf options) "img"); [done|].
      unfold imageToCanvas in Hthrow.
      destruct (Browser.hasContext2d browser); cbn [mbind outcome_bind] in Hthrow.
      * by destruct (String.eqb (formatOf options) "canvas").
      * right. by injection Hthrow as <-.
    + left. by injection Hthrow as <-.
  - left. cbn [mbind outcome_bind] in Hthrow. injection Hthrow as <-.
    pose proof (getShapes_throws _ _ _ Hshapes) as ->. split; [done|].
    rewrite getShapes_flat in Hshapes.
    destruct (mapM_outcome getTextShapes (textNodesOf (ElementNode rect children)))
      as [ss|e''] eqn:Hmap; [done|].
    simpl in Hshapes. injection Hshapes as ->.
    by apply mapM_outcome_throw_iff.
Qed.

(** ** One line of text, end to end *)






(** * The further properties at concrete inputs *)

(** X2 at [hello], which has no special character, and at [a b]. *)
Lemma encodeSvgText_unchanged_witness :
  encodeSvgText "hello" = "hello"
  /\ (String.length "a b" < String.length (encodeSvgText "a b"))%nat.
Proof.
  split.
  - apply (proj2 (proj1 (encodeSvgText_unchanged "hello"))). reflexivity.
  - apply (proj2 (encodeSvgText_unchanged "a b")). reflexivity.
Defined.

(** X3 at a character and at its own escape. *)
Lemma encodeSvgText_injective_witness :
  "<" <> "&lt;" /\ encodeSvgText "<" <> encodeSvgText "&lt;".
Proof.
  split; [discriminate|]. apply encodeSvgText_injective. discriminate.
Defined.

(** X5 at [wrappedText]. *)
Lemma getTextNodeLines_reading_order_witness :
  inReadingOrder wrappedText (nodeValue wrappedText) 0 0
  /\ joinLines (map Line.text (getTextNodeLines wrappedText)) = "ab cd"
  /\ map Line.rect (getTextNodeLines wrappedText)
     = [Some (lineRect 0 24); Some (lineRect 1 16)].
Proof.
  assert (inReadingOrder wrappedText (nodeValue wrappedText) 0 0) as Hord.
  { simpl. repeat split; lia. }
  destruct (getTextNodeLines_reading_order wrappedText Hord) as [Hjoin Hrect].
  split; [exact Hord|]. split; [exact Hjoin|].
  apply Hrect. discriminate.
Defined.

(** X6 at a text node without parent and at a text node of two spaces. *)
Lemma getTextShapes_blank_witness :
  getTextShapes orphanText = Ok [] /\ getTextShapes blankText = Ok [].
Proof.
  split.
  - apply (proj1 (getTextShapes_blank orphanText)). reflexivity.
  - apply (proj2 (getTextShapes_blank blankText)). reflexivity.
Defined.

(** X7 at [helloText], whose line has a rectangle, and at [hiddenText],
    whose lines have none. *)
Lemma getTextShapes_outcome_witness :
  getTextShapes helloText
  = Ok (shapesOfLines defaultStyle (getTextNodeLines helloText))
  /\ getTextShapes hiddenText = Throw TypeError.
Proof.
  split.
  - apply (proj1 (getTextShapes_outcome helloText defaultStyle eq_refl eq_refl)).
    intros l Hin _. apply list_elem_of_In in Hin. simpl in Hin.
    destruct Hin as [<-|[]]. simpl. eauto.
  - apply (proj2 (getTextShapes_outcome hiddenText defaultStyle eq_refl eq_refl)).
    exists {| Line.rect := None; Line.text := "a" |}.
    split; [|done]. apply list_elem_of_In. simpl. tauto.
Defined.

(** X8 at [wrappedText]. *)
Lemma getTextShapes_reading_order_witness :
  inReadingOrder wrappedText (nodeValue wrappedText) 0 0
  /\ getTextShapes wrappedText
     = Ok [ toShape (lineRect 0 24) defaultStyle "ab ";
            toShape (lineRect 1 16) defaultStyle "cd" ].
Proof.
  assert (inReadingOrder wrappedText (nodeValue wrappedText) 0 0) as Hord.
  { simpl. repeat split; lia. }
  split; [exact Hord|].
  exact (proj1 (getTextShapes_reading_order wrappedText defaultStyle
                  eq_refl eq_refl Hord)).
Defined.

(** X10 at an element around [wrappedText]. *)
Lemma getShapes_shapes_not_blank_witness :
  exists shapes,
    getShapes (elementAround wrappedText) (lineRect 0 40) = Ok shapes
    /\ length shapes = 2%nat
    /\ Forall (fun shape => notBlank (Shape.text shape) = true
                            /\ nonEmpty (Shape.text shape) = true
                            /\ exists computedStyle,
                                 Shape.styles shape = relevantStyles computedStyle)
              shapes.
Proof.
  eexists. split; [reflexivity|]. split; [reflexivity|].
  apply (getShapes_shapes_not_blank (elementAround wrappedText) (lineRect 0 40)).
  reflexivity.
Defined.

(** X11 at an element around [hiddenText]. *)
Lemma getShapes_failure_witness :
  getShapes (elementAround hiddenText) (lineRect 0 40) = Throw TypeError.
Proof.
  apply (proj2 (proj2 (getShapes_failure (elementAround hiddenText)
                         (lineRect 0 40)))).
  exists hiddenText. split; [|reflexivity].
  apply list_elem_of_In. simpl. tauto.
Defined.

(** X14 at the first and the third of [styledShapes], which are both red. *)
Lemma shapesToSvg_classes_witness :
  exists ei ej,
    Svg.textNodes (shapesToSvg styledShapes None None (of_Z 0) (of_Z 1)) !! 0%nat
    = Some ei
    /\ Svg.textNodes (shapesToSvg styledShapes None None (of_Z 0) (of_Z 1)) !! 2%nat
       = Some ej
    /\ TextElement.class ei = TextElement.class ej.
Proof.
  eexists. eexists. split; [reflexivity|]. split; [reflexivity|].
  apply (proj1 (shapesToSvg_classes styledShapes None None (of_Z 0) (of_Z 1)
                  0 2 _ _ _ _ eq_refl eq_refl eq_refl eq_refl)).
  reflexivity.
Defined.

(** X16 at an element around [wrappedText]. *)
Lemma getShapes_all_drawn_witness :
  exists shapes,
    getShapes (elementAround wrappedText) (lineRect 0 40) = Ok shapes
    /\ map TextElement.content
           (Svg.textNodes
              (shapesToSvg (normalizeShapes shapes) None None (of_Z 0) (of_Z 1)))
       = map (fun shape => encodeSvgText (Shape.text shape)) shapes.
Proof.
  eexists. split; [reflexivity|].
  apply (getShapes_all_drawn (elementAround wrappedText) (lineRect 0 40)).
  reflexivity.
Defined.


(** The content size of [contentShapes]. *)
Lemma contentShapes_size :
  getSizeFromShapes contentShapes
  = {| Size.width := Fin (Qc_of_Z 100); Size.height := Fin (Qc_of_Z 50) |}.
Proof. vm_compute. eq_num. Qed.

(** X18 at content 100 by 50 with the default padding. *)
Lemma shapesToSvg_natural_size_witness :
  Svg.viewBox (shapesToSvg contentShapes None None (of_Z 0) (of_Z 1))
  = (of_Z 0, of_Z 0, Some (of_Z 100), Some (of_Z 50))
  /\ Svg.width (shapesToSvg contentShapes None None (of_Z 0) (of_Z 1))
     = (of_Z 100 * of_Z 1)%num.
Proof.
  destruct (proj2 (proj2 (proj2 (proj2 (proj2 (proj2
              (shapesToSvg_natural_size contentShapes (of_Z 0) (of_Z 1)))))))
              (Qc_of_Z 100) (Qc_of_Z 50)) as (Hvb & Hw & _).
  - reflexivity.
  - vm_compute. eq_num.
  - exact (conj Hvb Hw).
Defined.



(** X23 at a text node as target with a format that the test rejects: the
    target is refused first. *)
Lemma snapText_fails_fast_witness :
  snapText workingBrowser (NodeObject (TextNode helloText)) (formatOption "pdf")
  = Throw (Thrown "Need to supply a querySelector or HTMLElement")
  /\ snapText workingBrowser (NodeObject (elementAround hiddenText))
       (formatOption "pdf")
     = Throw (Thrown ("Invalid format " +:+ quoted "pdf")).
Proof.
  destruct (snapText_fails_fast workingBrowser) as (Hnode & _ & Hformat).
  split.
  - apply Hnode. discriminate.
  - apply (Hformat _ (elementAround hiddenText)); reflexivity.
Defined.

(** X24 at an element around [helloText] with the format [svg]. *)
Lemma snapText_result_kind_witness :
  exists svg,
    snapText workingBrowser (NodeObject (elementAround helloText))
      (formatOption "svg") = Ok (SvgElement svg)
    /\ exists element offset shapes,
         targetElement workingBrowser (NodeObject (elementAround helloText))
         = Some element
         /\ getBoundingClientRect element = Ok offset
         /\ getShapes element offset = Ok shapes
         /\ formatOf (formatOption "svg") = "svg"
         /\ svg = documentOf shapes (formatOption "svg").
Proof.
  eexists. split; [reflexivity|].
  exact (snapText_result_kind workingBrowser
           (NodeObject (elementAround helloText)) (formatOption "svg")
           (SvgElement _) eq_refl).
Defined.

(** X25 at the format [svg], in a browser that rasterizes and in one that
    does not. *)
Lemma snapText_vector_formats_witness :
  snapText workingBrowser (NodeObject (elementAround helloText)) (formatOption "svg")
  = snapText brokenBrowser (NodeObject (elementAround helloText))
      (formatOption "svg").
Proof.
  apply snapText_vector_formats; [left; reflexivity|reflexivity].
Defined.

(** X26 at the default format in a browser in which no image decodes. *)
Lemma snapText_failures_witness :
  snapText brokenBrowser (NodeObject (elementAround helloText)) noOptions
  = Throw (Rejected "error")
  /\ formatOf noOptions <> "svg" /\ formatOf noOptions <> "blob".
Proof.
  assert (snapText brokenBrowser (NodeObject (elementAround helloText)) noOptions
          = Throw (Rejected "error")) as H by reflexivity.
  split; [exact H|].
  destruct (snapText_failures _ _ _ _ H)
    as [[_ He]|[[_ He]|[[He _]|(Hsvg & Hblob & _)]]]; try discriminate He.
  exact (conj Hsvg Hblob).
Defined.

